(** * Spark SQL comparison kernels of Velox: a shallow embedding

    Source: velox/functions/sparksql/Comparisons.cpp.

    The file embeds the template class [ComparisonFunction<Cmp, kind>]
    (capability flags and [apply]) and the dispatcher [makeImpl] with its
    five entry points, and proves the properties the specification states
    about them.  The vector library, the evaluation context and the
    comparison functors are declared in headers, not in Comparisons.cpp;
    they are modelled from the specification, each under a comment that
    says so. *)

From stdpp Require Import base option list strings.
From Stdlib Require Import ZArith Lia.

Local Open Scope string_scope.

(** ** Types of the host type system *)

(** Modelled from the spec: the enumeration [TypeKind], which is declared
    in velox/type/Type.h and not in Comparisons.cpp.  The first twelve
    enumerators are the ones named by the switch of [makeImpl]; [ARRAY],
    [MAP] and [ROW] are the kinds of the composite types, and the last four
    are the remaining tags of the closed enumeration. *)
Inductive TypeKind : Set :=
  | BOOLEAN | TINYINT | SMALLINT | INTEGER | BIGINT | HUGEINT
  | REAL | DOUBLE | VARCHAR | VARBINARY | TIMESTAMP | DATE
  | ARRAY | MAP | ROW | UNKNOWN | FUNCTION | OPAQUE | INVALID.

#[global] Instance TypeKind_eq_dec : EqDecision TypeKind.
Proof. solve_decision. Defined.

(** Modelled from the spec: the printed form of a kind, used when an error
    message is formatted (the formatter of [TypeKind] is declared with the
    enumeration). *)
Definition kindName (k : TypeKind) : string :=
  match k with
  | BOOLEAN => "BOOLEAN" | TINYINT => "TINYINT" | SMALLINT => "SMALLINT"
  | INTEGER => "INTEGER" | BIGINT => "BIGINT" | HUGEINT => "HUGEINT"
  | REAL => "REAL" | DOUBLE => "DOUBLE" | VARCHAR => "VARCHAR"
  | VARBINARY => "VARBINARY" | TIMESTAMP => "TIMESTAMP" | DATE => "DATE"
  | ARRAY => "ARRAY" | MAP => "MAP" | ROW => "ROW" | UNKNOWN => "UNKNOWN"
  | FUNCTION => "FUNCTION" | OPAQUE => "OPAQUE" | INVALID => "INVALID"
  end.

(** Modelled from the spec: a declared type (class [Type], declared in
    velox/type/Type.h) is a kind tag together with its type parameters (for
    instance the precision and scale of a decimal).  [operator==] on types
    is full equality, not equality of kinds. *)
Record VeloxType : Set := mkType {
  kind : TypeKind;
  typeParameters : list Z
}.

#[global] Instance VeloxType_eq_dec : EqDecision VeloxType.
Proof. solve_decision. Defined.

Definition scalarType (k : TypeKind) : VeloxType := mkType k [].

(** [DECIMAL(precision, scale)]: the short decimals of the repository's
    tests are stored as 64-bit integers. *)
Definition DECIMAL (precision scale : Z) : VeloxType :=
  mkType BIGINT [precision; scale].

(** [exec::VectorFunctionArg]: only the declared type is consulted by the
    dispatcher. *)
Record VectorFunctionArg : Set := mkArg { type : VeloxType }.

(** ** Exceptions and fallible results *)

(** The two macros that throw in Comparisons.cpp.  [CheckFailed] carries
    the text of the violated condition ([VELOX_CHECK], [VELOX_CHECK_EQ]);
    [NotYetImplemented] carries the formatted message of [VELOX_NYI]. *)
Inductive VeloxException : Set :=
  | CheckFailed (condition : string)
  | NotYetImplemented (message : string).

Inductive Expected (A : Type) : Type :=
  | Returned (a : A)
  | Thrown (e : VeloxException).
Arguments Returned {A} a.
Arguments Thrown {A} e.

(** The specification's name for a failed check of the call signature. *)
Definition isSignatureError {A} (r : Expected A) : bool :=
  match r with
  | Thrown (CheckFailed _) => true
  | _ => false
  end.

Definition isUnsupportedTypeError {A} (r : Expected A) : bool :=
  match r with
  | Thrown (NotYetImplemented _) => true
  | _ => false
  end.

Definition succeeded {A} (r : Expected A) : bool :=
  match r with
  | Returned _ => true
  | Thrown _ => false
  end.

(** ** The kernel object and the dispatcher *)

(** The template template parameter [Cmp] of [makeImpl]. *)
Inductive Comparison : Set :=
  | Equal | Less | Greater | LessOrEqual | GreaterOrEqual.

#[global] Instance Comparison_eq_dec : EqDecision Comparison.
Proof. solve_decision. Defined.

(** An instance of [ComparisonFunction<Cmp<NativeType>, kind>].  The class
    has no data members: an instance is determined by the two template
    arguments it was instantiated with. *)
Record ComparisonFunction : Set := mkComparisonFunction {
  fnCmp : Comparison;
  fnKind : TypeKind
}.

Definition isDefaultNullBehavior (f : ComparisonFunction) : bool := true.

Definition supportsFlatNoNullsFastPath (f : ComparisonFunction) : bool := true.

(** The loop [for (size_t i = 1; i < args.size(); i++)] of [makeImpl],
    run over [args[1..]]: the first argument whose type differs from
    [args[0].type] makes the check fail. *)
Fixpoint checkSameTypes (first : VeloxType) (rest : list VectorFunctionArg)
  : bool :=
  match rest with
  | [] => true
  | a :: rest' =>
      if bool_decide (type a = first) then checkSameTypes first rest'
      else false
  end.

Definition notSupportedMessage (functionName : string) (k : TypeKind)
  : string :=
  functionName +:+ " does not support arguments of type " +:+ kindName k.

Definition makeImpl (Cmp : Comparison) (functionName : string)
    (args : list VectorFunctionArg) : Expected ComparisonFunction :=
  if negb (length args =? 2)%nat then
    Thrown (CheckFailed "args.size() == 2")
  else
    match args with
    | [] => Thrown (CheckFailed "args.size() == 2")
    | arg0 :: rest =>
        if negb (checkSameTypes (type arg0) rest) then
          Thrown (CheckFailed "*args[i].type == *args[0].type")
        else
          match kind (type arg0) with
          | BOOLEAN => Returned (mkComparisonFunction Cmp BOOLEAN)
          | TINYINT => Returned (mkComparisonFunction Cmp TINYINT)
          | SMALLINT => Returned (mkComparisonFunction Cmp SMALLINT)
          | INTEGER => Returned (mkComparisonFunction Cmp INTEGER)
          | BIGINT => Returned (mkComparisonFunction Cmp BIGINT)
          | HUGEINT => Returned (mkComparisonFunction Cmp HUGEINT)
          | REAL => Returned (mkComparisonFunction Cmp REAL)
          | DOUBLE => Returned (mkComparisonFunction Cmp DOUBLE)
          | VARCHAR => Returned (mkComparisonFunction Cmp VARCHAR)
          | VARBINARY => Returned (mkComparisonFunction Cmp VARBINARY)
          | TIMESTAMP => Returned (mkComparisonFunction Cmp TIMESTAMP)
          | DATE => Returned (mkComparisonFunction Cmp DATE)
          | k => Thrown (NotYetImplemented (notSupportedMessage functionName k))
          end
    end.

Definition makeEqualTo := makeImpl Equal.
Definition makeLessThan := makeImpl Less.
Definition makeGreaterThan := makeImpl Greater.
Definition makeLessThanOrEqual := makeImpl LessOrEqual.
Definition makeGreaterThanOrEqual := makeImpl GreaterOrEqual.

(** The operator a construction entry point instantiates. *)
Definition entryPoint (op : Comparison)
  : string -> list VectorFunctionArg -> Expected ComparisonFunction :=
  match op with
  | Equal => makeEqualTo
  | Less => makeLessThan
  | Greater => makeGreaterThan
  | LessOrEqual => makeLessThanOrEqual
  | GreaterOrEqual => makeGreaterThanOrEqual
  end.

(** The allow-list as the specification enumerates it: logical boolean,
    signed integers of widths 8, 16, 32 and 64, the 128-bit wide integer,
    single and double floating point, variable-length character and
    binary, timestamp, date. *)
Definition allowListed (k : TypeKind) : bool :=
  bool_decide (k ∈ [BOOLEAN; TINYINT; SMALLINT; INTEGER; BIGINT; HUGEINT;
                    REAL; DOUBLE; VARCHAR; VARBINARY; TIMESTAMP; DATE]).

(** ** Columns, decoded views and the selection mask *)

(** Modelled from the spec: [SelectivityVector], a class of the vector
    library, is the set of active rows of a batch of fixed size, kept as one
    bit per row. *)
Record SelectivityVector : Set := mkRows { bits : list bool }.

Definition size (rows : SelectivityVector) : nat := length (bits rows).

Definition isValid (rows : SelectivityVector) (i : nat) : bool :=
  default false (bits rows !! i).

(** The iteration behind [applyToSelected]: [func] is invoked once for each
    set bit, in ascending row order; [row] is the index of the head bit.
    [func] acts on the state [S] it is given and may fail. *)
Fixpoint forEachSetBit {S : Type} (bs : list bool) (row : nat)
    (func : nat -> S -> option S) (s : S) : option S :=
  match bs with
  | [] => Some s
  | b :: bs' =>
      if b then s' ← func row s; forEachSetBit bs' (Datatypes.S row) func s'
      else forEachSetBit bs' (Datatypes.S row) func s
  end.

Definition applyToSelected {S : Type} (rows : SelectivityVector)
    (func : nat -> S -> option S) (s : S) : option S :=
  forEachSetBit (bits rows) 0 func s.

(** The active rows, ascending. *)
Definition selectedRows (rows : SelectivityVector) : list nat :=
  filter (λ i, isValid rows i = true) (seq 0 (size rows)).

Section Columns.
Context {T : Type}.

(** Modelled from the spec: an argument column ([VectorPtr], a pointer to
    a class of the vector library) is a dense array, a single repeated
    value, or any other encoding, which re-maps rows onto an inner column
    through indices. *)
Inductive Vector : Type :=
  | FlatVector (values : list T)
  | ConstantVector (value : T) (vectorSize : nat)
  | DictionaryVector (indices : list nat) (dictionaryValues : Vector).

(** [as<FlatVector<T>>()]: the dynamic cast yields the dense array of a
    flat column and a null pointer on every other encoding. *)
Definition asFlatVector (v : Vector) : option (list T) :=
  match v with
  | FlatVector values => Some values
  | _ => None
  end.

(** The element a column holds at a row; [None] where the column has no
    such row. *)
Fixpoint logicalValueAt (v : Vector) (i : nat) : option T :=
  match v with
  | FlatVector values => values !! i
  | ConstantVector c _ => Some c
  | DictionaryVector indices inner =>
      j ← indices !! i; logicalValueAt inner j
  end.

(** Modelled from the spec: [DecodedVector], a class of the vector
    library, is the read-only accessor over an argument, fixed for the
    call: which of the shapes Identity and Constant it has (neither:
    Generic), and [valueAt]. *)
Record DecodedVector : Type := mkDecoded {
  isIdentityMapping : bool;
  isConstantMapping : bool;
  valueAt : nat -> option T
}.

(** Modelled from the spec: decoding a column for the rows of a mask.  A
    dense array is read in place and a constant has its one value at every
    index; the indirection of any other encoding is resolved for the rows
    of the mask only. *)
Definition decode (rows : SelectivityVector) (v : Vector) : DecodedVector :=
  match v with
  | FlatVector values => mkDecoded true false (λ i, values !! i)
  | ConstantVector c _ => mkDecoded false true (λ _, Some c)
  | DictionaryVector _ _ =>
      mkDecoded false false
        (λ i, if isValid rows i then logicalValueAt v i else None)
  end.

(** [exec::DecodedArgs decodedArgs(rows, args, context)] followed by
    [decodedArgs.at(n)]. *)
Definition decodedArgsAt (rows : SelectivityVector) (args : list Vector)
    (n : nat) : option DecodedVector :=
  decode rows <$> args !! n.
End Columns.
Arguments Vector T : clear implicits.
Arguments DecodedVector T : clear implicits.

(** ** The result buffer *)

(** Modelled from the spec: the result column is a dense array with its
    declared type. *)
Record FlatResult : Set := mkFlatResult {
  resultType : VeloxType;
  rawValues : list bool
}.

(** Modelled from the spec: the evaluation context ([exec::EvalCtx],
    declared in velox/expression/EvalCtx.h) is the host's service object;
    the kernel only asks it to make the result writable.  [uninitialized]
    is the content of the memory the host hands out at each fresh row,
    about which nothing is promised. *)
Record EvalCtx : Set := mkEvalCtx { uninitialized : nat -> bool }.

(** Modelled from the spec: [context.ensureWritable(rows, type, result)]
    makes [result] a writable dense column of the requested type with one
    entry per row of the batch.  Entries of an existing result are kept;
    rows that had no entry hold whatever the host's memory held. *)
Definition ensureWritable (context : EvalCtx) (rows : SelectivityVector)
    (ty : VeloxType) (result : option FlatResult) : FlatResult :=
  let old := from_option rawValues [] result in
  mkFlatResult ty
    (old ++ (uninitialized context
             <$> seq (length old) (size rows - length old))).

(** [flatResult->set(i, value)]; writing past the end of the buffer is
    undefined. *)
Definition set (values : list bool) (i : nat) (value : bool)
  : option (list bool) :=
  if (i <? length values)%nat then Some (<[i := value]> values) else None.

(** ** The kernel *)

Section Outcomes.
Context {T : Type}.

(** What a call leaves behind: [args] and [result] are both passed by
    non-const reference. *)
Record Outcome : Type := mkOutcome {
  argsAfter : list (Vector T);
  resultAfter : FlatResult
}.
End Outcomes.
Arguments Outcome T : clear implicits.

(** The four branches of [apply], in the order of the source. *)
Inductive Strategy : Set :=
  | BothIdentity | IdentityConstant | ConstantIdentity | Fallback.

(** Where an operand of [Cmp] comes from: [decodedNValues.valueAt(i)], the
    dense array of argument N read at the row of the loop;
    [decodedN->valueAt<T>(i)], the decoded view of argument N read at that
    row; or the local [constantValue], read from argument N before the
    loop. *)
Inductive Operand : Set :=
  | FlatElement (arg : nat)
  | DecodedElement (arg : nat)
  | CachedConstant (arg : nat).

(** What [apply] does, in program order: the evaluation of the condition
    that guards a branch; [auto constantValue = decodedN->valueAt<T>(0)];
    and [flatResult->set(i, cmp(left, right))] at a row. *)
Inductive Event : Set :=
  | Tested (guarded : Strategy)
  | ConstantRead (arg : nat)
  | Compared (row : nat) (left right : Operand).

(** The state of a recorded loop: the result buffer and the events so
    far. *)
Record Run : Set := mkRun {
  stored : list bool;
  performed : list Event
}.

(** [flatResult->set(i, value)], recorded as the event [e]. *)
Definition store (run : Run) (i : nat) (value : bool) (e : Event)
  : option Run :=
  values ← set (stored run) i value;
  Some (mkRun values (performed run ++ [e])%list).

Module Recorded.
Section Recording.
Context {T : Type}.
Variable cmp : T -> T -> bool.

(** A call with its events. *)
Record Execution : Type := mkExecution {
  outcome : Outcome T;
  events : list Event
}.

(** [ComparisonFunction::apply], statement for statement, with every
    condition it evaluates, every constant it caches and every comparison
    it stores recorded in the order of execution.  [None] stands for
    undefined behaviour: a missing argument, a null pointer dereferenced,
    a read or write out of bounds. *)
Definition apply (rows : SelectivityVector) (args : list (Vector T))
    (outputType : VeloxType) (context : EvalCtx)
    (result : option FlatResult) : option Execution :=
  decoded0 ← decodedArgsAt rows args 0;
  decoded1 ← decodedArgsAt rows args 1;
  let flatResult := ensureWritable context rows (scalarType BOOLEAN) result in
  let tested1 := [Tested BothIdentity] in
  run ←
    (if isIdentityMapping decoded0 && isIdentityMapping decoded1 then
       decoded0Values ← args !! 0%nat ≫= asFlatVector;
       decoded1Values ← args !! 1%nat ≫= asFlatVector;
       applyToSelected rows
         (λ i run,
            a ← decoded0Values !! i;
            b ← decoded1Values !! i;
            store run i (cmp a b)
              (Compared i (FlatElement 0) (FlatElement 1)))
         (mkRun (rawValues flatResult) tested1)
     else
       let tested2 := (tested1 ++ [Tested IdentityConstant])%list in
       if isIdentityMapping decoded0 && isConstantMapping decoded1 then
         decoded0Values ← args !! 0%nat ≫= asFlatVector;
         constantValue ← valueAt decoded1 0;
         applyToSelected rows
           (λ i run,
              a ← decoded0Values !! i;
              store run i (cmp a constantValue)
                (Compared i (FlatElement 0) (CachedConstant 1)))
           (mkRun (rawValues flatResult) (tested2 ++ [ConstantRead 1])%list)
       else
         let tested3 := (tested2 ++ [Tested ConstantIdentity])%list in
         if isConstantMapping decoded0 && isIdentityMapping decoded1 then
           constantValue ← valueAt decoded0 0;
           decoded1Values ← args !! 1%nat ≫= asFlatVector;
           applyToSelected rows
             (λ i run,
                b ← decoded1Values !! i;
                store run i (cmp constantValue b)
                  (Compared i (CachedConstant 0) (FlatElement 1)))
             (mkRun (rawValues flatResult) (tested3 ++ [ConstantRead 0])%list)
         else
           applyToSelected rows
             (λ i run,
                a ← valueAt decoded0 i;
                b ← valueAt decoded1 i;
                store run i (cmp a b)
                  (Compared i (DecodedElement 0) (DecodedElement 1)))
             (mkRun (rawValues flatResult) tested3));
  Some (mkExecution
          (mkOutcome args (mkFlatResult (resultType flatResult) (stored run)))
          (performed run)).
End Recording.
Arguments Execution T : clear implicits.
End Recorded.

Section Apply.
Context {T : Type}.
(** The functor object [const Cmp cmp]. *)
Variable cmp : T -> T -> bool.

(** [ComparisonFunction::apply]: what the call above leaves behind. *)
Definition apply (rows : SelectivityVector) (args : list (Vector T))
    (outputType : VeloxType) (context : EvalCtx)
    (result : option FlatResult) : option (Outcome T) :=
  Recorded.outcome
    <$> Recorded.apply cmp rows args outputType context result.
End Apply.

(** ** The comparison functors *)

(** The operators [==] and [<] of a native element type. *)
Class NativeOps (T : Type) : Type := {
  native_eq : T -> T -> bool;
  native_lt : T -> T -> bool
}.

(** Modelled from the spec: the functors [Equal], [Less], [Greater],
    [LessOrEqual] and [GreaterOrEqual], which are declared in Comparisons.h
    and not in Comparisons.cpp, implement the natural order of the element
    type. *)
Definition evalCmp {T : Type} `{NativeOps T} (op : Comparison) (a b : T)
  : bool :=
  match op with
  | Equal => native_eq a b
  | Less => native_lt a b
  | Greater => native_lt b a
  | LessOrEqual => native_lt a b || native_eq a b
  | GreaterOrEqual => native_lt b a || native_eq a b
  end.

(** A call of the kernel [f] on columns whose element type [T] is the
    native type of the kernel's kind, which is what the type check of the
    dispatcher establishes for the two arguments of an expression.  The
    table from kinds to native types ([TypeTraits], declared in Type.h) is
    not modelled, so nothing here covers a kernel handed columns of
    another element type, where the casts of the source yield null. *)
Definition applyKernel {T : Type} `{NativeOps T} (f : ComparisonFunction)
  : SelectivityVector -> list (Vector T) -> VeloxType -> EvalCtx ->
    option FlatResult -> option (Outcome T) :=
  apply (evalCmp (fnCmp f)).

(** Element types whose operators form a strict total order. *)
Class TotalOrder (T : Type) `{NativeOps T} : Prop := {
  native_eq_spec : forall a b : T, native_eq a b = true <-> a = b;
  native_lt_irrefl : forall a : T, native_lt a a = false;
  native_lt_trans : forall a b c : T,
    native_lt a b = true -> native_lt b c = true -> native_lt a c = true;
  native_lt_total : forall a b : T,
    a = b \/ native_lt a b = true \/ native_lt b a = true
}.

(** Modelled from the spec: the native element types
    ([TypeTraits<kind>::NativeType], declared in velox/type/Type.h) with
    their standard ordering.  First the integer kinds and [DATE] (days
    since the epoch). *)
#[global] Instance Z_native : NativeOps Z :=
  {| native_eq := Z.eqb; native_lt := Z.ltb |}.

(** [BOOLEAN]: [false < true]. *)
#[global] Instance bool_native : NativeOps bool :=
  {| native_eq := Bool.eqb; native_lt := fun a b => negb a && b |}.

(** [VARCHAR] and [VARBINARY]: byte-wise lexicographic order. *)
#[global] Instance string_native : NativeOps string :=
  {| native_eq := String.eqb; native_lt := String.ltb |}.

(** [TIMESTAMP]: seconds, then nanoseconds. *)
Record Timestamp : Set := mkTimestamp { seconds : Z; nanos : Z }.

#[global] Instance Timestamp_native : NativeOps Timestamp :=
  {| native_eq := fun a b =>
       Z.eqb (seconds a) (seconds b) && Z.eqb (nanos a) (nanos b);
     native_lt := fun a b =>
       Z.ltb (seconds a) (seconds b)
       || (Z.eqb (seconds a) (seconds b) && Z.ltb (nanos a) (nanos b)) |}.

(** Exactly one of three booleans holds. *)
Definition exactlyOne (x y z : bool) : bool :=
  (x && negb y && negb z) || (negb x && y && negb z)
  || (negb x && negb y && z).

(** The value a call left in the result column at a row. *)
Definition resultAt {T : Type} (o : option (Outcome T)) (i : nat)
  : option bool :=
  out ← o; rawValues (resultAfter out) !! i.

(** ** The dispatch table as the specification words it *)

Inductive Shape : Set := Identity | Constant | Generic.

Definition shapeOf {T : Type} (v : Vector T) : Shape :=
  match v with
  | FlatVector _ => Identity
  | ConstantVector _ _ => Constant
  | DictionaryVector _ _ => Generic
  end.

(** Identity/Identity, then Identity/Constant, then Constant/Identity, then
    the fallback for anything else. *)
Definition dispatchTable (s0 s1 : Shape) : Strategy :=
  match s0, s1 with
  | Identity, Identity => BothIdentity
  | Identity, Constant => IdentityConstant
  | Constant, Identity => ConstantIdentity
  | _, _ => Fallback
  end.

(** The operands a strategy hands to [Cmp] at a row: dense arrays are read
    by index, a constant is the cached value, the fallback goes through the
    decoded views of both arguments. *)
Definition operandsAt {T : Type} (st : Strategy) (rows : SelectivityVector)
    (v0 v1 : Vector T) (i : nat) : option (T * T) :=
  match st with
  | BothIdentity =>
      d0 ← asFlatVector v0; d1 ← asFlatVector v1;
      a ← d0 !! i; b ← d1 !! i; Some (a, b)
  | IdentityConstant =>
      d0 ← asFlatVector v0; c ← valueAt (decode rows v1) 0;
      a ← d0 !! i; Some (a, c)
  | ConstantIdentity =>
      c ← valueAt (decode rows v0) 0; d1 ← asFlatVector v1;
      b ← d1 !! i; Some (c, b)
  | Fallback =>
      a ← valueAt (decode rows v0) i; b ← valueAt (decode rows v1) i;
      Some (a, b)
  end.

(** One strategy run over the mask. *)
Definition runStrategy {T : Type} (cmp : T -> T -> bool) (st : Strategy)
    (rows : SelectivityVector) (v0 v1 : Vector T) (buf : list bool)
  : option (list bool) :=
  applyToSelected rows
    (λ i buf, ab ← operandsAt st rows v0 v1 i; set buf i (cmp ab.1 ab.2)) buf.

(** The events of a call as the specification's rule of dispatch has them,
    from the shapes of its two arguments alone.  The guards are tried once,
    in the order Identity/Identity, Identity/Constant, Constant/Identity,
    up to the first that holds; the generic fallback has no guard and is
    reached when none holds. *)
Definition casesTested (st : Strategy) : list Strategy :=
  match st with
  | BothIdentity => [BothIdentity]
  | IdentityConstant => [BothIdentity; IdentityConstant]
  | ConstantIdentity | Fallback =>
      [BothIdentity; IdentityConstant; ConstantIdentity]
  end.

(** The constant is read once, before the loop, in the two branches that
    have one. *)
Definition constantReads (st : Strategy) : list Event :=
  match st with
  | IdentityConstant => [ConstantRead 1]
  | ConstantIdentity => [ConstantRead 0]
  | BothIdentity | Fallback => []
  end.

(** The left and the right operand of [Cmp] in the loop of a strategy. *)
Definition operandsOf (st : Strategy) : Operand * Operand :=
  match st with
  | BothIdentity => (FlatElement 0, FlatElement 1)
  | IdentityConstant => (FlatElement 0, CachedConstant 1)
  | ConstantIdentity => (CachedConstant 0, FlatElement 1)
  | Fallback => (DecodedElement 0, DecodedElement 1)
  end.

Definition comparison (st : Strategy) (i : nat) : Event :=
  Compared i (operandsOf st).1 (operandsOf st).2.

Definition expectedEvents (st : Strategy) (rows : SelectivityVector)
  : list Event :=
  ((Tested <$> casesTested st) ++ constantReads st
   ++ (comparison st <$> selectedRows rows))%list.

(** The rows a loop over the bits visits, in the order of the visits. *)
Fixpoint setBitsFrom (bs : list bool) (row : nat) : list nat :=
  match bs with
  | [] => []
  | b :: bs' =>
      if b then row :: setBitsFrom bs' (S row) else setBitsFrom bs' (S row)
  end.

(** ** What a call computes, in closed form *)

(** The buffer a loop leaves behind when it stores [g j] at every active
    row [j] and touches nothing else. *)
Definition writeRows (g : nat -> option bool) (rows : SelectivityVector)
    (buf : list bool) : list bool :=
  imap (λ j old, if isValid rows j then default old (g j) else old) buf.

(** A column is readable on a mask when its decoded view has a value at
    every active row. *)
Definition readable {T : Type} (rows : SelectivityVector) (v : Vector T)
  : bool :=
  forallb (λ i, bool_decide (is_Some (valueAt (decode rows v) i)))
          (selectedRows rows).

(** [Cmp] applied to the decoded element values of the two arguments at a
    row. *)
Definition comparedAt {T : Type} (cmp : T -> T -> bool)
    (rows : SelectivityVector) (v0 v1 : Vector T) (i : nat) : option bool :=
  a ← valueAt (decode rows v0) i;
  b ← valueAt (decode rows v1) i;
  Some (cmp a b).

(** The mask that is active wherever either of two masks of one batch is
    active. *)
Definition unionRows (rows1 rows2 : SelectivityVector) : SelectivityVector :=
  mkRows (zip_with orb (bits rows1) (bits rows2)).

(** [Cmp] applied to the elements two columns hold at a row. *)
Definition comparedLogically {T : Type} (cmp : T -> T -> bool)
    (v0 v1 : Vector T) (i : nat) : option bool :=
  a ← logicalValueAt v0 i;
  b ← logicalValueAt v1 i;
  Some (cmp a b).

(** ** The loop over the mask *)

Lemma set_Some (buf : list bool) (i : nat) (v : bool) :
  i < length buf -> set buf i v = Some (<[i := v]> buf).
Proof.
  intros Hi. unfold set.
  destruct (Nat.ltb_spec i (length buf)) as [_ | Hge]; [reflexivity | lia].
Qed.

Lemma forEachSetBit_ext {S : Type} (f f' : nat -> S -> option S) bs :
  (forall i s, f i s = f' i s) ->
  forall row s, forEachSetBit bs row f s = forEachSetBit bs row f' s.
Proof.
  intros Hff'. induction bs as [| b bs IH]; intros row s; simpl.
  - reflexivity.
  - destruct b.
    + rewrite Hff'. destruct (f' row s) as [s' |]; simpl; [apply IH | reflexivity].
    + apply IH.
Qed.

(** Rows are visited in ascending order starting at [row]; every visit
    stores the value of [g] at its own row. *)
Lemma forEachSetBit_store (g : nat -> option bool) (bs : list bool) :
  forall (row : nat) (buf : list bool),
    row + length bs <= length buf ->
    (forall k, bs !! k = Some true -> is_Some (g (row + k))) ->
    exists buf',
      forEachSetBit bs row (λ i b, v ← g i; set b i v) buf = Some buf'
      /\ length buf' = length buf
      /\ (forall j, row <= j -> bs !! (j - row) = Some true ->
                    buf' !! j = g j)
      /\ (forall j, (j < row \/ bs !! (j - row) <> Some true) ->
                    buf' !! j = buf !! j).
Proof.
  induction bs as [| b bs IH]; intros row buf Hlen Hdef; simpl in *.
  - exists buf. repeat split; auto. intros j _ Hj. by rewrite lookup_nil in Hj.
  - assert (Hdef' : forall k, bs !! k = Some true -> is_Some (g (S row + k))).
    { intros k Hk. replace (S row + k) with (row + S k) by lia.
      apply Hdef. exact Hk. }
    destruct b.
    + destruct (Hdef 0) as [v Hv]; [reflexivity |].
      rewrite Nat.add_0_r in Hv. rewrite Hv. simpl.
      rewrite set_Some by lia.
      destruct (IH (S row) (<[row := v]> buf)) as (buf' & Hrun & Hl & Hin & Hout).
      { rewrite length_insert. lia. }
      { exact Hdef'. }
      exists buf'. rewrite length_insert in Hl. split; [exact Hrun |].
      split; [exact Hl |]. split.
      * intros j Hj Hbit. destruct (decide (j = row)) as [-> | Hne].
        -- rewrite Hout by (left; lia).
           rewrite list_lookup_insert_eq by lia. by rewrite Hv.
        -- apply Hin; [lia |].
           replace (j - row) with (S (j - S row)) in Hbit by lia. exact Hbit.
      * intros j [Hj | Hbit].
        -- rewrite Hout by (left; lia).
           apply list_lookup_insert_ne. lia.
        -- destruct (decide (j < row)) as [Hlt | Hge].
           ++ rewrite Hout by (left; lia). apply list_lookup_insert_ne. lia.
           ++ assert (j <> row).
              { intros ->. apply Hbit. by rewrite Nat.sub_diag. }
              rewrite Hout.
              ** apply list_lookup_insert_ne. lia.
              ** right. replace (j - row) with (S (j - S row)) in Hbit by lia.
                 exact Hbit.
    + destruct (IH (S row) buf) as (buf' & Hrun & Hl & Hin & Hout);
        [lia | exact Hdef' |].
      exists buf'. split; [exact Hrun |]. split; [exact Hl |]. split.
      * intros j Hj Hbit. destruct (decide (j = row)) as [-> | Hne].
        -- rewrite Nat.sub_diag in Hbit. discriminate.
        -- apply Hin; [lia |].
           replace (j - row) with (S (j - S row)) in Hbit by lia. exact Hbit.
      * intros j [Hj | Hbit].
        -- apply Hout. left. lia.
        -- destruct (decide (j <= row)) as [Hle | Hgt].
           ++ apply Hout. left. lia.
           ++ apply Hout. right.
              replace (j - row) with (S (j - S row)) in Hbit by lia.
              exact Hbit.
Qed.

Lemma isValid_true (rows : SelectivityVector) (i : nat) :
  isValid rows i = true <-> bits rows !! i = Some true.
Proof.
  unfold isValid. destruct (bits rows !! i) as [[|] |]; simpl; split;
    intros; congruence.
Qed.

Lemma isValid_lt (rows : SelectivityVector) (i : nat) :
  isValid rows i = true -> i < size rows.
Proof.
  intros H%isValid_true. apply lookup_lt_Some in H. exact H.
Qed.

(** The loop in closed form. *)
Lemma applyToSelected_store (g : nat -> option bool)
    (rows : SelectivityVector) (buf : list bool) :
  size rows <= length buf ->
  (forall i, isValid rows i = true -> is_Some (g i)) ->
  applyToSelected rows (λ i b, v ← g i; set b i v) buf
  = Some (writeRows g rows buf).
Proof.
  intros Hlen Hdef. unfold applyToSelected.
  destruct (forEachSetBit_store g (bits rows) 0 buf)
    as (buf' & Hrun & Hl & Hin & Hout).
  { exact Hlen. }
  { intros k Hk. apply Hdef. by apply isValid_true. }
  rewrite Hrun. f_equal. apply list_eq. intros j.
  unfold writeRows. rewrite list_lookup_imap.
  destruct (isValid rows j) eqn:Hv.
  - assert (Hbit : bits rows !! j = Some true) by by apply isValid_true.
    rewrite Hin; [| lia | by rewrite Nat.sub_0_r].
    destruct (Hdef j Hv) as [v Hgv]. rewrite Hgv.
    assert (Hj : j < length buf).
    { apply lookup_lt_Some in Hbit. unfold size in Hlen. lia. }
    destruct (lookup_lt_is_Some_2 buf j Hj) as [old Hold].
    rewrite Hold. reflexivity.
  - rewrite Hout.
    + destruct (buf !! j); reflexivity.
    + right. rewrite Nat.sub_0_r. intros Hbit.
      apply isValid_true in Hbit. congruence.
Qed.

Lemma writeRows_ext (g g' : nat -> option bool) rows buf :
  (forall i, isValid rows i = true -> g i = g' i) ->
  writeRows g rows buf = writeRows g' rows buf.
Proof.
  intros Hgg'. unfold writeRows. apply imap_ext. intros j old _.
  simpl. destruct (isValid rows j) eqn:Hv; [| reflexivity].
  by rewrite Hgg'.
Qed.

Lemma writeRows_length g rows buf :
  length (writeRows g rows buf) = length buf.
Proof. unfold writeRows. apply length_imap. Qed.

Lemma writeRows_active g rows buf i v :
  isValid rows i = true -> size rows <= length buf -> g i = Some v ->
  writeRows g rows buf !! i = Some v.
Proof.
  intros Hv Hlen Hg. unfold writeRows. rewrite list_lookup_imap, Hv, Hg.
  apply isValid_lt in Hv.
  destruct (lookup_lt_is_Some_2 buf i) as [old ->]; [lia | reflexivity].
Qed.

Lemma writeRows_inactive g rows buf i :
  isValid rows i = false -> writeRows g rows buf !! i = buf !! i.
Proof.
  intros Hv. unfold writeRows. rewrite list_lookup_imap, Hv.
  destruct (buf !! i); reflexivity.
Qed.

Lemma ensureWritable_length context rows ty result :
  size rows <= length (rawValues (ensureWritable context rows ty result)).
Proof.
  unfold ensureWritable. simpl.
  rewrite length_app, length_fmap, length_seq. lia.
Qed.

Lemma ensureWritable_type context rows ty result :
  resultType (ensureWritable context rows ty result) = ty.
Proof. reflexivity. Qed.

(** ** What a call computes *)

Lemma elem_of_selectedRows rows i :
  i ∈ selectedRows rows <-> isValid rows i = true.
Proof.
  unfold selectedRows. rewrite list_elem_of_filter, elem_of_seq. split.
  - intros [H _]. exact H.
  - intros H. split; [exact H |]. apply isValid_lt in H. lia.
Qed.

Lemma readable_valueAt {T : Type} rows (v : Vector T) i :
  readable rows v = true -> isValid rows i = true ->
  is_Some (valueAt (decode rows v) i).
Proof.
  unfold readable. rewrite forallb_forall. intros Hall Hi.
  assert (Hin : i ∈ selectedRows rows) by by apply elem_of_selectedRows.
  apply list_elem_of_In, Hall in Hin. by apply bool_decide_eq_true in Hin.
Qed.

Lemma applyToSelected_closed (func : nat -> list bool -> option (list bool))
    (g : nat -> option bool) rows buf :
  (forall i b, func i b = (v ← g i; set b i v)) ->
  size rows <= length buf ->
  (forall i, isValid rows i = true -> is_Some (g i)) ->
  applyToSelected rows func buf = Some (writeRows g rows buf).
Proof.
  intros Hfunc Hlen Hdef. unfold applyToSelected.
  rewrite (forEachSetBit_ext func (λ i b, v ← g i; set b i v)) by exact Hfunc.
  by apply applyToSelected_store.
Qed.

(** A recorded loop stores what the plain loop stores and appends one
    event for each row it visits, in the order of the visits. *)
Lemma forEachSetBit_recorded (F : nat -> Run -> option Run)
    (f : nat -> list bool -> option (list bool)) (e : nat -> Event) :
  (forall i run,
     F i run
     = (b ← f i (stored run); Some (mkRun b (performed run ++ [e i])%list))) ->
  forall bs row buf evs,
    forEachSetBit bs row F (mkRun buf evs)
    = (b ← forEachSetBit bs row f buf;
       Some (mkRun b (evs ++ (e <$> setBitsFrom bs row))%list)).
Proof.
  intros HF. induction bs as [| b bs IH]; intros row buf evs; simpl.
  - by rewrite app_nil_r.
  - destruct b; [| apply IH].
    rewrite HF. cbn [stored performed].
    destruct (f row buf) as [buf' |]; cbn; [| reflexivity].
    rewrite IH. destruct (forEachSetBit bs (S row) f buf'); cbn;
      [| reflexivity].
    by rewrite <- app_assoc.
Qed.

Lemma filter_seq_ext (P Q : nat -> Prop) `{!forall i, Decision (P i)}
    `{!forall i, Decision (Q i)} (n : nat) :
  forall start,
    (forall i, start <= i -> P i <-> Q i) ->
    filter P (seq start n) = filter Q (seq start n).
Proof.
  induction n as [| n IH]; intros start HPQ; [reflexivity |].
  cbn [seq]. rewrite !filter_cons.
  rewrite (IH (S start)) by (intros i Hi; apply HPQ; lia).
  destruct (decide (P start)) as [HP | HP], (decide (Q start)) as [HQ | HQ];
    try reflexivity; exfalso.
  - apply HQ, HPQ; [lia | exact HP].
  - apply HP, HPQ; [lia | exact HQ].
Qed.

Lemma setBitsFrom_filter (bs : list bool) :
  forall row,
    setBitsFrom bs row
    = filter (λ i, default false (bs !! (i - row)) = true)
        (seq row (length bs)).
Proof.
  induction bs as [| b bs IH]; intros row; [reflexivity |].
  cbn [setBitsFrom length seq]. rewrite filter_cons, Nat.sub_diag.
  cbn [lookup list_lookup default from_option].
  rewrite (filter_seq_ext _ (λ i, default false (bs !! (i - S row)) = true)).
  - rewrite <- IH. destruct b; [| reflexivity].
    destruct (decide (true = true)); [reflexivity | congruence].
  - intros i Hi. replace (i - row) with (S (i - S row)) by lia. reflexivity.
Qed.

Lemma setBitsFrom_selectedRows (rows : SelectivityVector) :
  setBitsFrom (bits rows) 0 = selectedRows rows.
Proof.
  rewrite setBitsFrom_filter. unfold selectedRows, size, isValid.
  apply filter_seq_ext. intros i _. by rewrite Nat.sub_0_r.
Qed.

Section ApplyFacts.
Context {T : Type}.
Variable cmp : T -> T -> bool.

(** In every branch, the recorded call is the one loop that stores [Cmp]
    of the two decoded values at each active row; what differs from branch
    to branch is the events. *)
Lemma recorded_apply_as_loop rows (v0 v1 : Vector T) rest outputType context
    result :
  Recorded.apply cmp rows (v0 :: v1 :: rest) outputType context result
  = (values ← applyToSelected rows
               (λ i b, v ← comparedAt cmp rows v0 v1 i; set b i v)
               (rawValues (ensureWritable context rows (scalarType BOOLEAN)
                             result));
     Some (Recorded.mkExecution
             (mkOutcome (v0 :: v1 :: rest)
                (mkFlatResult (scalarType BOOLEAN) values))
             (expectedEvents (dispatchTable (shapeOf v0) (shapeOf v1))
                rows))).
Proof.
  unfold Recorded.apply, decodedArgsAt, applyToSelected.
  destruct v0 as [d0 | c0 n0 | ix0 in0], v1 as [d1 | c1 n1 | ix1 in1];
    cbn [lookup list_lookup fmap option_fmap option_map mbind option_bind
         decode isIdentityMapping isConstantMapping valueAt asFlatVector
         andb negb shapeOf dispatchTable app];
    match goal with
    | |- mbind _ (forEachSetBit ?bs ?row ?F (mkRun ?buf ?evs))
         = mbind _ (forEachSetBit _ _ ?f _) =>
        match goal with
        | |- context [expectedEvents ?st rows] =>
            rewrite (forEachSetBit_recorded F f (comparison st))
        end
    end.
  all: try (destruct (forEachSetBit _ _ _ _); cbn [mbind option_bind];
            [| reflexivity];
            unfold expectedEvents; rewrite setBitsFrom_selectedRows;
            reflexivity).
  all: intros i run; unfold store, comparedAt, comparison;
    cbn [decode valueAt mbind option_bind operandsOf fst snd];
    repeat (match goal with
            | |- context [mbind _ ?X] =>
                lazymatch X with
                | mbind _ _ => fail
                | _ => destruct X
                end
            end; cbn [mbind option_bind]);
    reflexivity.
Qed.

(** In every branch, a call is the one loop that stores [Cmp] of the two
    decoded values at each active row, run on the writable buffer. *)
Lemma apply_as_loop rows (v0 v1 : Vector T) rest outputType context result :
  apply cmp rows (v0 :: v1 :: rest) outputType context result
  = (values ← applyToSelected rows
               (λ i b, v ← comparedAt cmp rows v0 v1 i; set b i v)
               (rawValues (ensureWritable context rows (scalarType BOOLEAN)
                             result));
     Some (mkOutcome (v0 :: v1 :: rest)
             (mkFlatResult (scalarType BOOLEAN) values))).
Proof.
  unfold apply. rewrite recorded_apply_as_loop.
  destruct (applyToSelected rows _ _); reflexivity.
Qed.

Lemma comparedAt_is_Some rows (v0 v1 : Vector T) i :
  readable rows v0 = true -> readable rows v1 = true ->
  isValid rows i = true -> is_Some (comparedAt cmp rows v0 v1 i).
Proof.
  intros H0 H1 Hi. unfold comparedAt.
  destruct (readable_valueAt rows v0 i H0 Hi) as [a ->].
  destruct (readable_valueAt rows v1 i H1 Hi) as [b ->].
  simpl. eauto.
Qed.

(** Whatever the shapes of the two arguments, a call on readable columns
    returns, leaves the arguments as they were, and leaves in the result
    a BOOLEAN column holding [Cmp] of the decoded values at every active
    row and the content of the writable buffer everywhere else. *)
Lemma apply_closed_form rows (v0 v1 : Vector T) rest outputType context
    result :
  readable rows v0 = true -> readable rows v1 = true ->
  apply cmp rows (v0 :: v1 :: rest) outputType context result
  = Some (mkOutcome (v0 :: v1 :: rest)
            (mkFlatResult (scalarType BOOLEAN)
               (writeRows (comparedAt cmp rows v0 v1) rows
                  (rawValues (ensureWritable context rows
                                (scalarType BOOLEAN) result))))).
Proof.
  intros H0 H1. rewrite apply_as_loop.
  rewrite applyToSelected_store; [reflexivity | |].
  - apply ensureWritable_length.
  - intros i Hi. by apply comparedAt_is_Some.
Qed.
End ApplyFacts.

(** ** The native orders are total *)

#[global] Instance Z_total : TotalOrder Z.
Proof.
  split; simpl.
  - intros a b. apply Z.eqb_eq.
  - intros a. apply Z.ltb_irrefl.
  - intros a b c. rewrite !Z.ltb_lt. lia.
  - intros a b. rewrite !Z.ltb_lt. lia.
Qed.

#[global] Instance bool_total : TotalOrder bool.
Proof.
  split; simpl.
  - intros [] []; simpl; split; congruence.
  - intros []; reflexivity.
  - intros [] [] []; simpl; congruence.
  - intros [] []; simpl; auto.
Qed.

Lemma string_compare_refl (s : string) : String.compare s s = Eq.
Proof.
  pose proof (String.compare_antisym s s) as H.
  destruct (String.compare s s); simpl in H; congruence.
Qed.

Lemma string_ltb_Lt (a b : string) :
  String.ltb a b = true <-> String.compare a b = Lt.
Proof.
  unfold String.ltb. destruct (String.compare a b); split; congruence.
Qed.

#[global] Instance string_total : TotalOrder string.
Proof.
  split; simpl.
  - intros a b. apply String.eqb_eq.
  - intros a. unfold String.ltb. by rewrite string_compare_refl.
  - intros a b c Hab%string_ltb_Lt Hbc%string_ltb_Lt. apply string_ltb_Lt.
    assert (Hle : String.le a c).
    { transitivity b; unfold String.le, String.leb.
      - by rewrite Hab.
      - by rewrite Hbc. }
    unfold String.le, String.leb in Hle.
    destruct (String.compare a c) eqn:Hac; [| reflexivity | contradiction].
    apply String.compare_eq_iff in Hac. subst c.
    rewrite String.compare_antisym, Hab in Hbc. discriminate.
  - intros a b. rewrite !string_ltb_Lt.
    destruct (String.compare a b) eqn:Hab.
    + left. by apply String.compare_eq_iff.
    + right. by left.
    + right. right. rewrite String.compare_antisym, Hab. reflexivity.
Qed.

#[global] Instance Timestamp_total : TotalOrder Timestamp.
Proof.
  split; simpl.
  - intros [s1 n1] [s2 n2]; simpl.
    rewrite andb_true_iff, !Z.eqb_eq. split.
    + intros [-> ->]. reflexivity.
    + intros [= -> ->]. split; reflexivity.
  - intros [s n]; simpl. rewrite !Z.ltb_irrefl, Z.eqb_refl. reflexivity.
  - intros [s1 n1] [s2 n2] [s3 n3]; simpl.
    rewrite !orb_true_iff, !andb_true_iff, !Z.ltb_lt, !Z.eqb_eq. lia.
  - intros [s1 n1] [s2 n2]; simpl.
    rewrite !orb_true_iff, !andb_true_iff, !Z.ltb_lt, !Z.eqb_eq.
    destruct (Z.lt_trichotomy s1 s2) as [? | [-> | ?]]; [lia | | lia].
    destruct (Z.lt_trichotomy n1 n2) as [? | [-> | ?]]; [lia | | lia].
    left. reflexivity.
Qed.

(** In a total order exactly one of [a < b], [a == b], [b < a] holds. *)
Lemma native_trichotomy {T : Type} `{TotalOrder T} (a b : T) :
  exactlyOne (native_lt a b) (native_eq a b) (native_lt b a) = true.
Proof.
  destruct (native_lt_total a b) as [-> | [Hlt | Hgt]].
  - rewrite native_lt_irrefl.
    rewrite (proj2 (native_eq_spec b b) eq_refl). reflexivity.
  - assert (Hba : native_lt b a = false).
    { destruct (native_lt b a) eqn:E; [| reflexivity].
      pose proof (native_lt_trans a b a Hlt E) as Haa.
      rewrite native_lt_irrefl in Haa. discriminate. }
    assert (Heq : native_eq a b = false).
    { destruct (native_eq a b) eqn:E; [| reflexivity].
      apply (proj1 (native_eq_spec a b)) in E. subst b.
      rewrite native_lt_irrefl in Hlt. discriminate. }
    rewrite Hlt, Hba, Heq. reflexivity.
  - assert (Hab : native_lt a b = false).
    { destruct (native_lt a b) eqn:E; [| reflexivity].
      pose proof (native_lt_trans a b a E Hgt) as Haa.
      rewrite native_lt_irrefl in Haa. discriminate. }
    assert (Heq : native_eq a b = false).
    { destruct (native_eq a b) eqn:E; [| reflexivity].
      apply (proj1 (native_eq_spec a b)) in E. subst b.
      rewrite native_lt_irrefl in Hgt. discriminate. }
    rewrite Hgt, Hab, Heq. reflexivity.
Qed.

Lemma native_eq_sym {T : Type} `{TotalOrder T} (a b : T) :
  native_eq a b = native_eq b a.
Proof.
  destruct (native_eq a b) eqn:Hab, (native_eq b a) eqn:Hba; try reflexivity.
  - apply (proj1 (native_eq_spec a b)) in Hab. subst b.
    rewrite (proj2 (native_eq_spec a a) eq_refl) in Hba. discriminate.
  - apply (proj1 (native_eq_spec b a)) in Hba. subst b.
    rewrite (proj2 (native_eq_spec a a) eq_refl) in Hab. discriminate.
Qed.

(** ** Construction: the dispatcher *)

Lemma checkSameTypes_pair (a0 a1 : VectorFunctionArg) :
  checkSameTypes (type a0) [a1] = bool_decide (type a1 = type a0).
Proof. simpl. destruct (bool_decide (type a1 = type a0)); reflexivity. Qed.

Lemma entryPoint_makeImpl (op : Comparison) :
  entryPoint op = makeImpl op.
Proof. destruct op; reflexivity. Qed.

Lemma makeImpl_wrong_count op functionName args :
  length args <> 2 ->
  makeImpl op functionName args = Thrown (CheckFailed "args.size() == 2").
Proof.
  intros Hlen. unfold makeImpl.
  destruct (Nat.eqb_spec (length args) 2) as [Heq | _]; [contradiction |].
  reflexivity.
Qed.

Lemma makeImpl_type_mismatch op functionName a0 a1 :
  type a0 <> type a1 ->
  makeImpl op functionName [a0; a1]
  = Thrown (CheckFailed "*args[i].type == *args[0].type").
Proof.
  intros Hne. unfold makeImpl. cbn [length Nat.eqb negb].
  rewrite checkSameTypes_pair, bool_decide_eq_false_2 by congruence.
  reflexivity.
Qed.

(** The switch, once both checks have passed. *)
Lemma makeImpl_same_types op functionName a0 a1 :
  type a0 = type a1 ->
  makeImpl op functionName [a0; a1]
  = if allowListed (kind (type a0))
    then Returned (mkComparisonFunction op (kind (type a0)))
    else Thrown (NotYetImplemented
                   (notSupportedMessage functionName (kind (type a0)))).
Proof.
  intros Heq. unfold makeImpl. cbn [length Nat.eqb negb].
  rewrite checkSameTypes_pair, bool_decide_eq_true_2 by congruence.
  cbn [negb]. destruct (kind (type a0)); reflexivity.
Qed.

(** C3.  Whichever of the five operators is asked for, construction throws
    a failed signature check when the argument count is not 2, and when
    there are two arguments whose declared types differ, even if they have
    the same kind.  No kernel is returned, so no row is ever processed. *)
Theorem construction_signature_error (op : Comparison)
    (functionName : string) (args : list VectorFunctionArg) :
  length args <> 2
  \/ (exists a0 a1, args = [a0; a1] /\ type a0 <> type a1) ->
  isSignatureError (entryPoint op functionName args) = true
  /\ succeeded (entryPoint op functionName args) = false
  /\ forall f, entryPoint op functionName args <> Returned f.
Proof.
  intros Hbad. rewrite entryPoint_makeImpl.
  assert (Hthrown : exists c, makeImpl op functionName args
                              = Thrown (CheckFailed c)).
  { destruct Hbad as [Hlen | (a0 & a1 & -> & Hne)].
    - eexists. by apply makeImpl_wrong_count.
    - eexists. by apply makeImpl_type_mismatch. }
  destruct Hthrown as [c ->]. repeat split. discriminate.
Qed.

Lemma construction_signature_error_witness :
  isSignatureError
    (entryPoint Less "lt" [mkArg (DECIMAL 5 2); mkArg (DECIMAL 5 1)]) = true
  /\ succeeded
       (entryPoint Less "lt" [mkArg (DECIMAL 5 2); mkArg (DECIMAL 5 1)])
     = false
  /\ forall f,
       entryPoint Less "lt" [mkArg (DECIMAL 5 2); mkArg (DECIMAL 5 1)]
       <> Returned f.
Proof.
  apply construction_signature_error. right.
  exists (mkArg (DECIMAL 5 2)), (mkArg (DECIMAL 5 1)).
  split; [reflexivity | discriminate].
Defined.

(** C4.  With two arguments of one declared type, construction succeeds
    exactly when the kind of that type is on the allow-list, and then
    returns the kernel of the requested operator for that kind; for any
    other kind it throws the not-supported error, whose message is the
    operator name, then [ does not support arguments of type ], then the
    name of the kind. *)
Theorem construction_allow_list (op : Comparison) (functionName : string)
    (a0 a1 : VectorFunctionArg) :
  type a0 = type a1 ->
  let k := kind (type a0) in
  let r := entryPoint op functionName [a0; a1] in
  succeeded r = allowListed k
  /\ (allowListed k = true -> r = Returned (mkComparisonFunction op k))
  /\ (allowListed k = false ->
      isUnsupportedTypeError r = true
      /\ r = Thrown (NotYetImplemented
                       (functionName +:+ " does not support arguments of type "
                        +:+ kindName k))).
Proof.
  intros Heq k r. subst k r.
  rewrite entryPoint_makeImpl, (makeImpl_same_types _ _ _ _ Heq).
  destruct (allowListed (kind (type a0))); repeat split; try discriminate;
    reflexivity.
Qed.

Lemma construction_allow_list_witness :
  succeeded (entryPoint Greater "gt"
               [mkArg (scalarType MAP); mkArg (scalarType MAP)])
  = allowListed MAP
  /\ (allowListed MAP = true ->
      entryPoint Greater "gt" [mkArg (scalarType MAP); mkArg (scalarType MAP)]
      = Returned (mkComparisonFunction Greater MAP))
  /\ (allowListed MAP = false ->
      isUnsupportedTypeError
        (entryPoint Greater "gt"
           [mkArg (scalarType MAP); mkArg (scalarType MAP)]) = true
      /\ entryPoint Greater "gt"
           [mkArg (scalarType MAP); mkArg (scalarType MAP)]
         = Thrown (NotYetImplemented
                     "gt does not support arguments of type MAP")).
Proof.
  apply (construction_allow_list Greater "gt"
           (mkArg (scalarType MAP)) (mkArg (scalarType MAP))).
  reflexivity.
Defined.

(** C9.  Every kernel instance reports default null behaviour and support
    for the flat-no-nulls fast path: the kernel any entry point returns for
    a supported element kind does, and so does every other instance,
    whatever operator and kind it was instantiated with. *)
Theorem capability_flags (op : Comparison) (functionName : string)
    (a0 a1 : VectorFunctionArg) :
  type a0 = type a1 ->
  allowListed (kind (type a0)) = true ->
  (exists f, entryPoint op functionName [a0; a1] = Returned f
             /\ isDefaultNullBehavior f = true
             /\ supportsFlatNoNullsFastPath f = true)
  /\ (forall g : ComparisonFunction,
        isDefaultNullBehavior g = true
        /\ supportsFlatNoNullsFastPath g = true).
Proof.
  intros Heq Hallowed. split.
  - exists (mkComparisonFunction op (kind (type a0))).
    rewrite entryPoint_makeImpl, (makeImpl_same_types _ _ _ _ Heq), Hallowed.
    repeat split.
  - intros g. split; reflexivity.
Qed.

Lemma capability_flags_witness :
  (exists f,
     entryPoint Equal "eq"
       [mkArg (scalarType VARCHAR); mkArg (scalarType VARCHAR)] = Returned f
     /\ isDefaultNullBehavior f = true
     /\ supportsFlatNoNullsFastPath f = true)
  /\ (forall g : ComparisonFunction,
        isDefaultNullBehavior g = true
        /\ supportsFlatNoNullsFastPath g = true).
Proof.
  apply (capability_flags Equal "eq"
           (mkArg (scalarType VARCHAR)) (mkArg (scalarType VARCHAR)));
    reflexivity.
Defined.

(** ** Evaluation: the kernel *)

Section KernelTheorems.
Context {T : Type}.
Variable cmp : T -> T -> bool.

Lemma resultAt_closed_form rows (v0 v1 : Vector T) outputType context result
    i :
  readable rows v0 = true -> readable rows v1 = true ->
  resultAt (apply cmp rows [v0; v1] outputType context result) i
  = writeRows (comparedAt cmp rows v0 v1) rows
      (rawValues (ensureWritable context rows (scalarType BOOLEAN) result))
    !! i.
Proof.
  intros H0 H1. unfold resultAt.
  rewrite (apply_closed_form cmp rows v0 v1 [] outputType context result H0 H1).
  reflexivity.
Qed.

(** A fresh buffer holds at each row what the host's memory held there. *)
Lemma ensureWritable_fresh context rows ty i :
  i < size rows ->
  rawValues (ensureWritable context rows ty None) !! i
  = Some (uninitialized context i).
Proof.
  intros Hi. unfold ensureWritable. simpl.
  rewrite Nat.sub_0_r, list_lookup_fmap, lookup_seq_lt by exact Hi.
  reflexivity.
Qed.

(** C1.  A call on two columns that are readable at the active rows
    returns; at every active row the result holds [Cmp] of the decoded
    element values of the two arguments; a row outside the mask keeps the
    content of the writable buffer, and for a freshly allocated buffer that
    content can be either boolean, so no value is guaranteed there. *)
Theorem apply_result_on_active_rows rows (v0 v1 : Vector T) outputType
    context result :
  readable rows v0 = true ->
  readable rows v1 = true ->
  exists out,
    apply cmp rows [v0; v1] outputType context result = Some out
    /\ (forall i a b,
          isValid rows i = true ->
          valueAt (decode rows v0) i = Some a ->
          valueAt (decode rows v1) i = Some b ->
          rawValues (resultAfter out) !! i = Some (cmp a b))
    /\ (forall i,
          isValid rows i = false ->
          rawValues (resultAfter out) !! i
          = rawValues (ensureWritable context rows (scalarType BOOLEAN) result)
            !! i)
    /\ (forall i value,
          isValid rows i = false -> i < size rows ->
          exists context',
            resultAt (apply cmp rows [v0; v1] outputType context' None) i
            = Some value).
Proof.
  intros H0 H1. eexists. split; [by apply apply_closed_form |].
  cbn [resultAfter rawValues]. split; [| split].
  - intros i a b Hi Ha Hb. apply writeRows_active.
    + exact Hi.
    + apply ensureWritable_length.
    + unfold comparedAt. rewrite Ha, Hb. reflexivity.
  - intros i Hi. by apply writeRows_inactive.
  - intros i value Hi Hlt. exists (mkEvalCtx (λ _, value)).
    rewrite resultAt_closed_form by assumption.
    rewrite writeRows_inactive by exact Hi.
    by rewrite ensureWritable_fresh.
Qed.
Lemma readable_intro rows (v : Vector T) :
  (forall i, isValid rows i = true -> is_Some (valueAt (decode rows v) i)) ->
  readable rows v = true.
Proof.
  intros Hall. unfold readable. apply forallb_forall. intros i Hin.
  apply bool_decide_eq_true. apply Hall.
  apply elem_of_selectedRows, list_elem_of_In, Hin.
Qed.

Lemma readable_agree rows (v w : Vector T) :
  readable rows v = true ->
  (forall i, isValid rows i = true ->
             valueAt (decode rows w) i = valueAt (decode rows v) i) ->
  readable rows w = true.
Proof.
  intros Hv Hagree. apply readable_intro. intros i Hi.
  rewrite Hagree by exact Hi. by apply readable_valueAt.
Qed.

Lemma comparedAt_agree rows (v0 v1 w0 w1 : Vector T) i :
  valueAt (decode rows w0) i = valueAt (decode rows v0) i ->
  valueAt (decode rows w1) i = valueAt (decode rows v1) i ->
  comparedAt cmp rows w0 w1 i = comparedAt cmp rows v0 v1 i.
Proof. intros E0 E1. unfold comparedAt. by rewrite E0, E1. Qed.

(** The values a call stores are those of the loop the dispatch table
    selects for the shapes of the arguments, and equally those of the
    fallback loop, whether or not the reads succeed. *)
Lemma apply_runs_strategy st rows (v0 v1 : Vector T) outputType context
    result :
  st = dispatchTable (shapeOf v0) (shapeOf v1) \/ st = Fallback ->
  (λ out, rawValues (resultAfter out))
    <$> apply cmp rows [v0; v1] outputType context result
  = runStrategy cmp st rows v0 v1
      (rawValues (ensureWritable context rows (scalarType BOOLEAN) result)).
Proof.
  intros Hst. rewrite apply_as_loop. unfold runStrategy, applyToSelected.
  match goal with
  | |- _ <$> mbind _ (forEachSetBit ?bs ?row ?f ?buf)
       = forEachSetBit _ _ ?f' _ =>
      rewrite (forEachSetBit_ext f f');
      [destruct (forEachSetBit bs row f' buf); reflexivity |]
  end.
  intros i b.
  destruct v0 as [d0 | c0 n0 | ix0 in0], v1 as [d1 | c1 n1 | ix1 in1];
    destruct Hst as [-> | ->];
    unfold comparedAt, operandsAt;
    cbn [decode valueAt asFlatVector mbind option_bind shapeOf
         dispatchTable];
    repeat (match goal with
            | |- context [mbind _ ?X] =>
                lazymatch X with
                | mbind _ _ => fail
                | _ => destruct X
                end
            end; cbn [mbind option_bind fst snd]);
    reflexivity.
Qed.

(** C2.  Two pairs of columns with the same decoded contents at the active
    rows, whatever their encodings and hence whichever path each call
    takes, give the same result at every active row, and a result is there;
    and the values a call stores, on whichever path, are the values the
    generic fallback loop stores when run on the same arguments. *)
Theorem paths_agree_on_active_rows rows (v0 v1 w0 w1 : Vector T) outputType
    context result :
  readable rows v0 = true ->
  readable rows v1 = true ->
  (forall i, isValid rows i = true ->
             valueAt (decode rows w0) i = valueAt (decode rows v0) i) ->
  (forall i, isValid rows i = true ->
             valueAt (decode rows w1) i = valueAt (decode rows v1) i) ->
  (forall i, isValid rows i = true ->
     is_Some (resultAt (apply cmp rows [v0; v1] outputType context result) i)
     /\ resultAt (apply cmp rows [w0; w1] outputType context result) i
        = resultAt (apply cmp rows [v0; v1] outputType context result) i)
  /\ (λ out, rawValues (resultAfter out))
       <$> apply cmp rows [v0; v1] outputType context result
     = runStrategy cmp Fallback rows v0 v1
         (rawValues (ensureWritable context rows (scalarType BOOLEAN) result)).
Proof.
  intros H0 H1 E0 E1. split.
  - intros i Hi.
    pose proof (readable_agree rows v0 w0 H0 E0) as G0.
    pose proof (readable_agree rows v1 w1 H1 E1) as G1.
    rewrite !resultAt_closed_form by assumption.
    destruct (comparedAt_is_Some cmp rows v0 v1 i H0 H1 Hi) as [value Hvalue].
    rewrite (writeRows_ext (comparedAt cmp rows w0 w1)
               (comparedAt cmp rows v0 v1)).
    + rewrite (writeRows_active _ _ _ i value Hi
                 (ensureWritable_length _ _ _ _) Hvalue).
      split; [eauto | reflexivity].
    + intros j Hj. apply comparedAt_agree; auto.
  - apply apply_runs_strategy. by right.
Qed.

(** C7.  Only the active rows of the inputs matter, and only the result is
    written.  A call on columns that are readable at the active rows
    returns, whatever the columns hold, or fail to hold, elsewhere; a second
    pair of columns that agrees with the first at the active rows leaves
    the very same result column; both calls leave their argument columns as
    they were; and in the result column every row outside the mask keeps
    the content the writable buffer had. *)
Theorem inactive_rows_have_no_effect rows (v0 v1 w0 w1 : Vector T)
    outputType context result :
  readable rows v0 = true ->
  readable rows v1 = true ->
  (forall i, isValid rows i = true ->
             valueAt (decode rows w0) i = valueAt (decode rows v0) i) ->
  (forall i, isValid rows i = true ->
             valueAt (decode rows w1) i = valueAt (decode rows v1) i) ->
  exists out out',
    apply cmp rows [v0; v1] outputType context result = Some out
    /\ apply cmp rows [w0; w1] outputType context result = Some out'
    /\ resultAfter out' = resultAfter out
    /\ argsAfter out = [v0; v1]
    /\ argsAfter out' = [w0; w1]
    /\ (forall i,
          isValid rows i = false ->
          rawValues (resultAfter out) !! i
          = rawValues (ensureWritable context rows (scalarType BOOLEAN) result)
            !! i).
Proof.
  intros H0 H1 E0 E1.
  pose proof (readable_agree rows v0 w0 H0 E0) as G0.
  pose proof (readable_agree rows v1 w1 H1 E1) as G1.
  eexists. eexists.
  split; [by apply apply_closed_form |].
  split; [by apply apply_closed_form |].
  cbn [resultAfter argsAfter rawValues].
  split; [| split; [reflexivity | split; [reflexivity |]]].
  - f_equal. apply writeRows_ext. intros i Hi.
    apply comparedAt_agree; auto.
  - intros i Hi. by apply writeRows_inactive.
Qed.

(** C10.  The requested output type plays no part: two calls that differ
    only in [outputType] return the same outcome, and the result column is
    a BOOLEAN column whatever type was requested. *)
Theorem outputType_is_ignored rows (v0 v1 : Vector T) outputType outputType'
    context result :
  readable rows v0 = true ->
  readable rows v1 = true ->
  exists out,
    apply cmp rows [v0; v1] outputType context result = Some out
    /\ apply cmp rows [v0; v1] outputType' context result = Some out
    /\ resultType (resultAfter out) = scalarType BOOLEAN
    /\ forall i, isValid rows i = true ->
         resultAt (apply cmp rows [v0; v1] outputType context result) i
         = resultAt (apply cmp rows [v0; v1] outputType' context result) i.
Proof.
  intros H0 H1. eexists.
  split; [by apply apply_closed_form |].
  split; [by apply apply_closed_form |].
  split; [reflexivity |].
  intros i _. by rewrite !resultAt_closed_form.
Qed.
End KernelTheorems.

Lemma apply_result_on_active_rows_witness :
  exists out,
    apply Z.eqb (mkRows [true; false; true])
      [FlatVector [3; 3; 7]%Z; FlatVector [3; 4; 2]%Z]
      (scalarType BOOLEAN) (mkEvalCtx (λ _, false)) None = Some out
    /\ rawValues (resultAfter out) !! 0 = Some true
    /\ rawValues (resultAfter out) !! 2 = Some false.
Proof.
  destruct (apply_result_on_active_rows Z.eqb (mkRows [true; false; true])
              (FlatVector [3; 3; 7]%Z) (FlatVector [3; 4; 2]%Z)
              (scalarType BOOLEAN) (mkEvalCtx (λ _, false)) None
              eq_refl eq_refl) as (out & Hout & Hactive & _).
  exists out. split; [exact Hout |]. split.
  - apply (Hactive 0 3%Z 3%Z); reflexivity.
  - apply (Hactive 2 7%Z 2%Z); reflexivity.
Defined.

Lemma paths_agree_on_active_rows_witness :
  resultAt
    (apply Z.leb (mkRows [true; true; true])
       [DictionaryVector [2; 0; 1] (FlatVector [5; 9; 1]%Z);
        FlatVector [5; 5; 5]%Z]
       (scalarType BOOLEAN) (mkEvalCtx (λ _, false)) None) 2
  = resultAt
      (apply Z.leb (mkRows [true; true; true])
         [FlatVector [1; 5; 9]%Z; ConstantVector 5%Z 3]
         (scalarType BOOLEAN) (mkEvalCtx (λ _, false)) None) 2.
Proof.
  refine (proj2 (proj1 (paths_agree_on_active_rows Z.leb
            (mkRows [true; true; true])
            (FlatVector [1; 5; 9]%Z) (ConstantVector 5%Z 3)
            (DictionaryVector [2; 0; 1] (FlatVector [5; 9; 1]%Z))
            (FlatVector [5; 5; 5]%Z)
            (scalarType BOOLEAN) (mkEvalCtx (λ _, false)) None
            eq_refl eq_refl _ _) 2 eq_refl));
    intros [| [| [| i]]] Hi; try reflexivity; discriminate Hi.
Defined.

Lemma inactive_rows_have_no_effect_witness :
  exists out out',
    apply Z.eqb (mkRows [true; false; true])
      [DictionaryVector [2; 7; 1] (FlatVector [10; 20; 30]%Z);
       FlatVector [30; 0; 20]%Z]
      (scalarType BOOLEAN) (mkEvalCtx (λ _, false)) None = Some out
    /\ apply Z.eqb (mkRows [true; false; true])
         [FlatVector [30; 99; 20]%Z; FlatVector [30; 1; 20]%Z]
         (scalarType BOOLEAN) (mkEvalCtx (λ _, false)) None = Some out'
    /\ resultAfter out' = resultAfter out.
Proof.
  destruct (inactive_rows_have_no_effect Z.eqb (mkRows [true; false; true])
              (DictionaryVector [2; 7; 1] (FlatVector [10; 20; 30]%Z))
              (FlatVector [30; 0; 20]%Z)
              (FlatVector [30; 99; 20]%Z) (FlatVector [30; 1; 20]%Z)
              (scalarType BOOLEAN) (mkEvalCtx (λ _, false)) None
              eq_refl eq_refl)
    as (out & out' & Hout & Hout' & Hsame & _).
  - intros [| [| [| i]]] Hi; try reflexivity; discriminate Hi.
  - intros [| [| [| i]]] Hi; try reflexivity; discriminate Hi.
  - exists out, out'. auto.
Defined.

Lemma outputType_is_ignored_witness :
  exists out,
    apply Z.ltb (mkRows [true; true])
      [FlatVector [1; 2]%Z; FlatVector [2; 1]%Z]
      (scalarType INTEGER) (mkEvalCtx (λ _, false)) None = Some out
    /\ apply Z.ltb (mkRows [true; true])
         [FlatVector [1; 2]%Z; FlatVector [2; 1]%Z]
         (scalarType VARCHAR) (mkEvalCtx (λ _, false)) None = Some out
    /\ resultType (resultAfter out) = scalarType BOOLEAN.
Proof.
  destruct (outputType_is_ignored Z.ltb (mkRows [true; true])
              (FlatVector [1; 2]%Z) (FlatVector [2; 1]%Z)
              (scalarType INTEGER) (scalarType VARCHAR)
              (mkEvalCtx (λ _, false)) None eq_refl eq_refl)
    as (out & H1 & H2 & Hty & _).
  exists out. auto.
Defined.

(** ** The operators *)

Lemma makeImpl_fnCmp op functionName args f :
  makeImpl op functionName args = Returned f -> fnCmp f = op.
Proof.
  unfold makeImpl. destruct (negb (length args =? 2)%nat); [discriminate |].
  destruct args as [| arg0 rest]; [discriminate |].
  destruct (negb (checkSameTypes (type arg0) rest)); [discriminate |].
  destruct (kind (type arg0)); intros [= <-]; reflexivity.
Qed.

(** C6.  For an element type whose native order is total, any two columns,
    whatever their shapes, and an active row where they hold [a] and [b]:
    the kernel built by [makeEqualTo] gives the same result on the two
    columns in either order; the kernel built by [makeLessThan] gives on
    (A, B) what the kernel built by [makeGreaterThan] gives on (B, A); and
    of the results of the less, equal and greater kernels on (A, B) exactly
    one is true. *)
Theorem comparison_algebra {T : Type} `{TotalOrder T}
    (functionName : string) (args : list VectorFunctionArg)
    (fEqual fLess fGreater : ComparisonFunction)
    (rows : SelectivityVector) (A B : Vector T) (outputType : VeloxType)
    (context : EvalCtx) (result : option FlatResult) (i : nat) (a b : T) :
  makeEqualTo functionName args = Returned fEqual ->
  makeLessThan functionName args = Returned fLess ->
  makeGreaterThan functionName args = Returned fGreater ->
  readable rows A = true ->
  readable rows B = true ->
  isValid rows i = true ->
  valueAt (decode rows A) i = Some a ->
  valueAt (decode rows B) i = Some b ->
  let run f X Y :=
    resultAt (applyKernel f rows [X; Y] outputType context result) i in
  run fEqual A B = run fEqual B A
  /\ run fLess A B = run fGreater B A
  /\ exists less equal greater,
       run fLess A B = Some less
       /\ run fEqual A B = Some equal
       /\ run fGreater A B = Some greater
       /\ exactlyOne less equal greater = true.
Proof.
  intros HE HL HG HA HB Hi Ha Hb run. subst run. cbv beta.
  unfold makeEqualTo, makeLessThan, makeGreaterThan in *.
  apply makeImpl_fnCmp in HE, HL, HG. unfold applyKernel.
  rewrite HE, HL, HG. rewrite !resultAt_closed_form by assumption.
  pose proof (ensureWritable_length context rows (scalarType BOOLEAN) result)
    as Hlen.
  assert (Hrun : forall op,
             writeRows (comparedAt (evalCmp op) rows A B) rows
               (rawValues (ensureWritable context rows (scalarType BOOLEAN)
                             result)) !! i = Some (evalCmp op a b)).
  { intros op. apply writeRows_active; [exact Hi | exact Hlen |].
    unfold comparedAt. rewrite Ha, Hb. reflexivity. }
  assert (Hrun' : forall op,
             writeRows (comparedAt (evalCmp op) rows B A) rows
               (rawValues (ensureWritable context rows (scalarType BOOLEAN)
                             result)) !! i = Some (evalCmp op b a)).
  { intros op. apply writeRows_active; [exact Hi | exact Hlen |].
    unfold comparedAt. rewrite Ha, Hb. reflexivity. }
  rewrite !Hrun, !Hrun'. cbn [evalCmp]. split; [| split].
  - f_equal. apply native_eq_sym.
  - reflexivity.
  - exists (native_lt a b), (native_eq a b), (native_lt b a).
    repeat split. apply native_trichotomy.
Qed.

Lemma comparison_algebra_witness :
  let run f X Y :=
    resultAt (applyKernel f (mkRows [true; true; true]) [X; Y]
                (scalarType BOOLEAN) (mkEvalCtx (λ _, false)) None) 0 in
  run (mkComparisonFunction Less INTEGER)
      (FlatVector [1; 5; 9]%Z) (ConstantVector 5%Z 3)
  = run (mkComparisonFunction Greater INTEGER)
      (ConstantVector 5%Z 3) (FlatVector [1; 5; 9]%Z).
Proof.
  exact (proj1 (proj2 (comparison_algebra "cmp"
           [mkArg (scalarType INTEGER); mkArg (scalarType INTEGER)]
           (mkComparisonFunction Equal INTEGER)
           (mkComparisonFunction Less INTEGER)
           (mkComparisonFunction Greater INTEGER)
           (mkRows [true; true; true])
           (FlatVector [1; 5; 9]%Z) (ConstantVector 5%Z 3)
           (scalarType BOOLEAN) (mkEvalCtx (λ _, false)) None 0 1%Z 5%Z
           eq_refl eq_refl eq_refl eq_refl eq_refl eq_refl eq_refl eq_refl))).
Defined.

(** C8.  The kernel [makeLessThanOrEqual] builds for integers, called on
    the dense column 1, 5, 9 and the constant column 5 with all three rows
    active, leaves the BOOLEAN column true, true, false; this holds for any
    requested output type and any content of the host's memory, and the
    three rows hold these values also when an earlier result is reused. *)
Theorem less_or_equal_scenario (functionName : string)
    (outputType : VeloxType) (context : EvalCtx) :
  exists f,
    makeLessThanOrEqual functionName
      [mkArg (scalarType INTEGER); mkArg (scalarType INTEGER)] = Returned f
    /\ resultAfter
         <$> applyKernel f (mkRows [true; true; true])
               [FlatVector [1; 5; 9]%Z; ConstantVector 5%Z 3]
               outputType context None
       = Some (mkFlatResult (scalarType BOOLEAN) [true; true; false])
    /\ forall result,
         (λ i, resultAt
                 (applyKernel f (mkRows [true; true; true])
                    [FlatVector [1; 5; 9]%Z; ConstantVector 5%Z 3]
                    outputType context result) i) <$> [0; 1; 2]
         = [Some true; Some true; Some false].
Proof.
  exists (mkComparisonFunction LessOrEqual INTEGER).
  split; [reflexivity |]. split; [reflexivity |].
  intros result. unfold applyKernel. cbn [fmap list_fmap fnCmp].
  rewrite !resultAt_closed_form by reflexivity.
  pose proof (ensureWritable_length context (mkRows [true; true; true])
                (scalarType BOOLEAN) result) as Hlen.
  do 3 (erewrite writeRows_active; [| reflexivity | exact Hlen | reflexivity]).
  reflexivity.
Qed.

(** The specification's scenario on text: a Generic column decoding to ant,
    bee, cat against the constant bee under the greater operator. *)
Example generic_text_scenario (context : EvalCtx) :
  resultAfter
    <$> applyKernel (mkComparisonFunction Greater VARCHAR)
          (mkRows [true; true; true])
          [DictionaryVector [2; 0; 1] (FlatVector ["bee"; "cat"; "ant"]);
           ConstantVector "bee" 3]
          (scalarType BOOLEAN) context None
  = Some (mkFlatResult (scalarType BOOLEAN) [false; false; true]).
Proof. reflexivity. Qed.

(** ** Further properties of the dispatcher *)

(** X1.  The three outcomes of construction, each with the exact
    signatures that lead to it: a kernel is returned only for two arguments
    of one declared type whose kind is on the allow-list; a signature check
    fails only when the count is not 2 or the two declared types differ;
    the not-supported error is thrown only for two arguments of one
    declared type whose kind is off the list. *)
Theorem construction_outcomes (op : Comparison) (functionName : string)
    (args : list VectorFunctionArg) :
  (succeeded (entryPoint op functionName args) = true <->
   exists a0 a1, args = [a0; a1] /\ type a0 = type a1
                 /\ allowListed (kind (type a0)) = true)
  /\ (isSignatureError (entryPoint op functionName args) = true <->
      length args <> 2
      \/ exists a0 a1, args = [a0; a1] /\ type a0 <> type a1)
  /\ (isUnsupportedTypeError (entryPoint op functionName args) = true <->
      exists a0 a1, args = [a0; a1] /\ type a0 = type a1
                    /\ allowListed (kind (type a0)) = false).
Proof.
  rewrite entryPoint_makeImpl.
  destruct args as [| a0 [| a1 [| a2 rest]]].
  1, 2, 4:
    rewrite makeImpl_wrong_count by (cbn [length]; lia); cbn;
    (split; [| split]); (split; [try discriminate | ]);
    try (intros (b0 & b1 & [=] & _)); try (intros _; left; cbn; lia);
    reflexivity.
  destruct (decide (type a0 = type a1)) as [Heq | Hne].
  - rewrite (makeImpl_same_types _ _ _ _ Heq).
    destruct (allowListed (kind (type a0))) eqn:Hallowed; cbn;
      (split; [| split]); split; try discriminate; try reflexivity.
    + intros _. exists a0, a1. auto.
    + intros [Hlen | (b0 & b1 & [= <- <-] & Hne)];
        [cbn in Hlen; lia | contradiction].
    + intros (b0 & b1 & [= <- <-] & _ & Hoff). congruence.
    + intros (b0 & b1 & [= <- <-] & _ & Hon). congruence.
    + intros [Hlen | (b0 & b1 & [= <- <-] & Hne)];
        [cbn in Hlen; lia | contradiction].
    + intros _. exists a0, a1. auto.
  - rewrite (makeImpl_type_mismatch _ _ _ _ Hne). cbn.
    (split; [| split]); split; try discriminate; try reflexivity.
    + intros (b0 & b1 & [= <- <-] & Heq & _). contradiction.
    + intros _. right. exists a0, a1. auto.
    + intros (b0 & b1 & [= <- <-] & Heq & _). contradiction.
Qed.

(** X2.  Construction does not depend on the order of the two arguments:
    although the switch reads the kind of the first argument only, swapping
    the arguments gives the same kernel or the same exception. *)
Theorem construction_argument_order (op : Comparison) (functionName : string)
    (a0 a1 : VectorFunctionArg) :
  entryPoint op functionName [a0; a1] = entryPoint op functionName [a1; a0].
Proof.
  rewrite entryPoint_makeImpl.
  destruct (decide (type a0 = type a1)) as [Heq | Hne].
  - rewrite (makeImpl_same_types _ _ a0 a1 Heq).
    rewrite (makeImpl_same_types _ _ a1 a0 (eq_sym Heq)).
    rewrite Heq. reflexivity.
  - rewrite (makeImpl_type_mismatch _ _ a0 a1 Hne).
    rewrite (makeImpl_type_mismatch _ _ a1 a0); [reflexivity | congruence].
Qed.

(** X3.  The five operator families accept exactly the same signatures:
    where one entry point throws, every other one throws the same
    exception, and where one returns a kernel, every other one returns the
    kernel of its own operator for the same element kind. *)
Theorem construction_operator_independent (op op' : Comparison)
    (functionName : string) (args : list VectorFunctionArg) :
  match entryPoint op functionName args with
  | Thrown e => entryPoint op' functionName args = Thrown e
  | Returned f =>
      fnCmp f = op
      /\ entryPoint op' functionName args
         = Returned (mkComparisonFunction op' (fnKind f))
  end.
Proof.
  rewrite !entryPoint_makeImpl.
  destruct args as [| a0 [| a1 [| a2 rest]]].
  1, 2, 4: rewrite !makeImpl_wrong_count by (cbn [length]; lia); reflexivity.
  destruct (decide (type a0 = type a1)) as [Heq | Hne].
  - rewrite !(makeImpl_same_types _ _ _ _ Heq).
    destruct (allowListed (kind (type a0))); cbn; auto.
  - rewrite !(makeImpl_type_mismatch _ _ _ _ Hne). reflexivity.
Qed.

(** ** Further properties of the kernel *)

(** A visit whose read fails makes the whole loop fail, whatever the
    visits before it stored. *)
Lemma forEachSetBit_fails (g : nat -> option bool) (bs : list bool) :
  forall (row : nat) (buf : list bool),
    (exists k, bs !! k = Some true /\ g (row + k) = None) ->
    forEachSetBit bs row (λ i b, v ← g i; set b i v) buf = None.
Proof.
  induction bs as [| b bs IH]; intros row buf (k & Hk & Hg).
  - by rewrite lookup_nil in Hk.
  - destruct k as [| k]; simpl in *.
    + injection Hk as ->. rewrite Nat.add_0_r in Hg. rewrite Hg. reflexivity.
    + assert (Hrest : exists k', bs !! k' = Some true
                                 /\ g (S row + k') = None).
      { exists k. split; [exact Hk |].
        replace (S row + k) with (row + S k) by lia. exact Hg. }
      destruct b; [| by apply IH].
      destruct (g row) as [v |]; [| reflexivity]. simpl.
      destruct (set buf row v) as [buf' |]; [| reflexivity]. simpl.
      by apply IH.
Qed.

Lemma forallb_false_witness {A : Type} (f : A -> bool) (l : list A) :
  forallb f l = false -> exists x, x ∈ l /\ f x = false.
Proof.
  induction l as [| x l IH]; simpl; [discriminate |].
  destruct (f x) eqn:Hfx; simpl.
  - intros (y & Hy & Hfy)%IH. exists y. split; [by right | exact Hfy].
  - intros _. exists x. split; [by left | exact Hfx].
Qed.

Section KernelFailure.
Context {T : Type}.
Variable cmp : T -> T -> bool.

Lemma readable_false rows (v : Vector T) :
  readable rows v = false ->
  exists i, isValid rows i = true /\ valueAt (decode rows v) i = None.
Proof.
  unfold readable. intros (i & Hi & Hnone)%forallb_false_witness.
  exists i. split; [by apply elem_of_selectedRows |].
  apply bool_decide_eq_false in Hnone.
  destruct (valueAt (decode rows v) i); [| reflexivity].
  exfalso. apply Hnone. eauto.
Qed.

Lemma apply_unreadable rows (v0 v1 : Vector T) rest outputType context
    result :
  readable rows v0 = false \/ readable rows v1 = false ->
  apply cmp rows (v0 :: v1 :: rest) outputType context result = None.
Proof.
  intros Hbad. rewrite apply_as_loop. unfold applyToSelected.
  rewrite forEachSetBit_fails; [reflexivity |].
  assert (Hrow : exists i, isValid rows i = true
                           /\ comparedAt cmp rows v0 v1 i = None).
  { destruct Hbad as [(i & Hi & Hnone)%readable_false
                     | (i & Hi & Hnone)%readable_false];
      exists i; (split; [exact Hi |]); unfold comparedAt; rewrite Hnone.
    - reflexivity.
    - destruct (valueAt (decode rows v0) i); reflexivity. }
  destruct Hrow as (i & Hi & Hnone). exists i.
  split; [by apply isValid_true | exact Hnone].
Qed.

Lemma apply_Some_readable rows (v0 v1 : Vector T) rest outputType context
    result out :
  apply cmp rows (v0 :: v1 :: rest) outputType context result = Some out ->
  readable rows v0 = true /\ readable rows v1 = true.
Proof.
  intros Hout.
  destruct (readable rows v0) eqn:H0, (readable rows v1) eqn:H1; auto;
    rewrite apply_unreadable in Hout by auto; discriminate.
Qed.

End KernelFailure.

Section KernelFacts.
Context {T : Type}.
Variable cmp : T -> T -> bool.

(** X4.  The kernel checks no bounds: when a column has no value at some
    active row, as a dense column shorter than the batch has none past its
    end, the call reads there all the same and is undefined. *)
Theorem apply_reads_unchecked rows (v0 v1 : Vector T) outputType context
    result i :
  isValid rows i = true ->
  valueAt (decode rows v0) i = None \/ valueAt (decode rows v1) i = None ->
  apply cmp rows [v0; v1] outputType context result = None.
Proof.
  intros Hi Hnone. apply apply_unreadable.
  destruct Hnone as [Hnone | Hnone]; [left | right];
    match goal with
    | |- readable rows ?v = false =>
        destruct (readable rows v) eqn:Hreadable; [| reflexivity];
        destruct (readable_valueAt rows v i Hreadable Hi) as [x Hx];
        congruence
    end.
Qed.

(** X5.  Only the first two arguments are looked at: arguments after the
    second change nothing in the result, while with fewer than two
    arguments the call is undefined. *)
Theorem apply_uses_first_two_arguments rows (v0 v1 : Vector T) rest
    outputType context result :
  resultAfter <$> apply cmp rows (v0 :: v1 :: rest) outputType context result
  = resultAfter <$> apply cmp rows [v0; v1] outputType context result
  /\ apply cmp rows [v0] outputType context result = None
  /\ apply cmp rows [] outputType context result = None.
Proof.
  split; [| split; reflexivity].
  rewrite !apply_as_loop.
  destruct (applyToSelected rows _ _); reflexivity.
Qed.

(** X6.  Swapping the two arguments together with the operands of [Cmp]
    changes nothing: the Identity/Constant and Constant/Identity branches
    mirror each other, and so do the operands in the other two branches. *)
Theorem apply_swapped_operands rows (v0 v1 : Vector T) outputType context
    result :
  resultAfter
    <$> apply (λ a b, cmp b a) rows [v1; v0] outputType context result
  = resultAfter <$> apply cmp rows [v0; v1] outputType context result.
Proof.
  destruct (readable rows v0) eqn:H0, (readable rows v1) eqn:H1;
    try (rewrite !apply_unreadable by auto; reflexivity).
  rewrite !apply_closed_form by assumption.
  cbn [fmap option_fmap option_map resultAfter]. do 2 f_equal.
  apply writeRows_ext. intros i _. unfold comparedAt.
  destruct (valueAt (decode rows v0) i), (valueAt (decode rows v1) i);
    reflexivity.
Qed.
Lemma writeRows_idem (g : nat -> option bool) rows buf :
  writeRows g rows (writeRows g rows buf) = writeRows g rows buf.
Proof.
  apply list_eq. intros j. unfold writeRows. rewrite !list_lookup_imap.
  destruct (buf !! j) as [old |]; [| reflexivity]. cbn.
  destruct (isValid rows j); [| reflexivity].
  destruct (g j); reflexivity.
Qed.

(** A buffer that already covers the batch is handed back as it is. *)
Lemma ensureWritable_covered context rows ty r :
  size rows <= length (rawValues r) ->
  rawValues (ensureWritable context rows ty (Some r)) = rawValues r.
Proof.
  intros Hlen. unfold ensureWritable. cbn [from_option rawValues].
  replace (size rows - length (rawValues r)) with 0 by lia.
  cbn. apply app_nil_r.
Qed.

Lemma no_selected_rows rows i :
  selectedRows rows = [] -> isValid rows i = false.
Proof.
  intros Hnone. destruct (isValid rows i) eqn:Hi; [| reflexivity].
  apply elem_of_selectedRows in Hi. rewrite Hnone in Hi.
  by apply not_elem_of_nil in Hi.
Qed.

(** X7.  On a mask with no active row a call returns for any two columns,
    even columns that hold no rows, and stores nothing: the result is the
    writable buffer as the host handed it over. *)
Theorem apply_empty_mask rows (v0 v1 : Vector T) outputType context result :
  selectedRows rows = [] ->
  apply cmp rows [v0; v1] outputType context result
  = Some (mkOutcome [v0; v1]
            (ensureWritable context rows (scalarType BOOLEAN) result)).
Proof.
  intros Hnone.
  rewrite apply_closed_form by (unfold readable; rewrite Hnone; reflexivity).
  do 2 f_equal. unfold ensureWritable at 2. f_equal.
  apply list_eq. intros j.
  apply writeRows_inactive. by apply no_selected_rows.
Qed.

(** X8.  Handing the result of a call back to the same call changes
    nothing, whatever output type is requested and whatever the host's
    memory holds the second time. *)
Theorem apply_result_reused rows (v0 v1 : Vector T) outputType outputType'
    context context' result out :
  apply cmp rows [v0; v1] outputType context result = Some out ->
  apply cmp rows [v0; v1] outputType' context' (Some (resultAfter out))
  = Some out.
Proof.
  intros Hout.
  destruct (apply_Some_readable cmp _ _ _ _ _ _ _ _ Hout) as [H0 H1].
  rewrite apply_closed_form in Hout by assumption.
  injection Hout as <-. rewrite apply_closed_form by assumption.
  cbn [resultAfter]. do 3 f_equal.
  rewrite ensureWritable_covered.
  - cbn [rawValues]. apply writeRows_idem.
  - cbn [rawValues]. rewrite writeRows_length.
    apply (ensureWritable_length context rows (scalarType BOOLEAN) result).
Qed.
End KernelFacts.

Lemma apply_reads_unchecked_witness :
  apply Z.ltb (mkRows [true; true])
    [FlatVector [1]%Z; ConstantVector 2%Z 2]
    (scalarType BOOLEAN) (mkEvalCtx (λ _, false)) None = None.
Proof.
  apply (apply_reads_unchecked Z.ltb (mkRows [true; true])
           (FlatVector [1]%Z) (ConstantVector 2%Z 2)
           (scalarType BOOLEAN) (mkEvalCtx (λ _, false)) None 1).
  - reflexivity.
  - left. reflexivity.
Defined.

Lemma apply_empty_mask_witness :
  apply Z.ltb (mkRows [false; false])
    [FlatVector []; DictionaryVector [7] (FlatVector [])]
    (scalarType BOOLEAN) (mkEvalCtx (λ _, true)) None
  = Some (mkOutcome [FlatVector []; DictionaryVector [7] (FlatVector [])]
            (mkFlatResult (scalarType BOOLEAN) [true; true])).
Proof.
  exact (apply_empty_mask Z.ltb (mkRows [false; false])
           (FlatVector []) (DictionaryVector [7] (FlatVector []))
           (scalarType BOOLEAN) (mkEvalCtx (λ _, true)) None eq_refl).
Defined.

Lemma apply_result_reused_witness :
  apply Z.ltb (mkRows [true; false; true])
    [FlatVector [1; 2; 3]%Z; ConstantVector 2%Z 3]
    (scalarType VARCHAR) (mkEvalCtx (λ _, true))
    (Some (mkFlatResult (scalarType BOOLEAN) [true; false; false]))
  = Some (mkOutcome [FlatVector [1; 2; 3]%Z; ConstantVector 2%Z 3]
            (mkFlatResult (scalarType BOOLEAN) [true; false; false])).
Proof.
  exact (apply_result_reused Z.ltb (mkRows [true; false; true])
           (FlatVector [1; 2; 3]%Z) (ConstantVector 2%Z 3)
           (scalarType BOOLEAN) (scalarType VARCHAR)
           (mkEvalCtx (λ _, false)) (mkEvalCtx (λ _, true)) None
           (mkOutcome [FlatVector [1; 2; 3]%Z; ConstantVector 2%Z 3]
              (mkFlatResult (scalarType BOOLEAN) [true; false; false]))
           eq_refl).
Defined.

Lemma size_unionRows rows1 rows2 :
  size rows1 = size rows2 -> size (unionRows rows1 rows2) = size rows1.
Proof.
  unfold size, unionRows. cbn [bits]. intros Hsize.
  rewrite length_zip_with. lia.
Qed.

Lemma isValid_unionRows rows1 rows2 i :
  size rows1 = size rows2 ->
  isValid (unionRows rows1 rows2) i = isValid rows1 i || isValid rows2 i.
Proof.
  unfold size, isValid, unionRows. cbn [bits]. intros Hsize.
  rewrite lookup_zip_with.
  destruct (bits rows1 !! i) as [b1 |] eqn:H1,
           (bits rows2 !! i) as [b2 |] eqn:H2; cbn; try reflexivity.
  - apply lookup_lt_Some in H1. apply lookup_ge_None in H2. lia.
  - apply lookup_ge_None in H1. apply lookup_lt_Some in H2. lia.
Qed.

Lemma ensureWritable_size context rows rows' ty result :
  size rows = size rows' ->
  ensureWritable context rows ty result
  = ensureWritable context rows' ty result.
Proof. intros Hsize. unfold ensureWritable. by rewrite Hsize. Qed.

Section KernelPasses.
Context {T : Type}.
Variable cmp : T -> T -> bool.

(** At an active row the decoded view yields the element the column
    holds there. *)
Lemma valueAt_decode_active rows (v : Vector T) i :
  isValid rows i = true -> valueAt (decode rows v) i = logicalValueAt v i.
Proof. intros Hi. destruct v; cbn; [| | rewrite Hi]; reflexivity. Qed.

Lemma comparedAt_active rows (v0 v1 : Vector T) i :
  isValid rows i = true ->
  comparedAt cmp rows v0 v1 i = comparedLogically cmp v0 v1 i.
Proof.
  intros Hi. unfold comparedAt, comparedLogically.
  by rewrite !valueAt_decode_active.
Qed.

Lemma readable_unionRows rows1 rows2 (v : Vector T) :
  size rows1 = size rows2 ->
  readable rows1 v = true -> readable rows2 v = true ->
  readable (unionRows rows1 rows2) v = true.
Proof.
  intros Hsize H1 H2. apply readable_intro. intros i Hi.
  rewrite valueAt_decode_active by exact Hi.
  rewrite isValid_unionRows in Hi by exact Hsize.
  apply orb_true_iff in Hi as [Hi | Hi].
  - rewrite <- (valueAt_decode_active rows1) by exact Hi.
    by apply readable_valueAt.
  - rewrite <- (valueAt_decode_active rows2) by exact Hi.
    by apply readable_valueAt.
Qed.

(** X9.  A batch can be evaluated in passes.  A call on one mask followed
    by a call on a second mask of the same batch that is handed the first
    result leaves exactly the column that a single call on the union of the
    two masks leaves: the second pass keeps what the first stored outside
    its own mask. *)
Theorem apply_in_two_passes rows1 rows2 (v0 v1 : Vector T) outputType
    outputType' context context' result :
  size rows1 = size rows2 ->
  readable rows1 v0 = true -> readable rows1 v1 = true ->
  readable rows2 v0 = true -> readable rows2 v1 = true ->
  exists out1 out,
    apply cmp rows1 [v0; v1] outputType context result = Some out1
    /\ apply cmp rows2 [v0; v1] outputType' context'
         (Some (resultAfter out1)) = Some out
    /\ apply cmp (unionRows rows1 rows2) [v0; v1] outputType context result
       = Some out.
Proof.
  intros Hsize H10 H11 H20 H21.
  pose proof (readable_unionRows _ _ v0 Hsize H10 H20) as HU0.
  pose proof (readable_unionRows _ _ v1 Hsize H11 H21) as HU1.
  pose proof (ensureWritable_length context rows1 (scalarType BOOLEAN) result)
    as Hlen.
  eexists. eexists.
  split; [by apply apply_closed_form |].
  split; [by apply apply_closed_form |].
  rewrite apply_closed_form by assumption. do 3 f_equal.
  cbn [resultAfter].
  rewrite ensureWritable_covered
    by (cbn [rawValues]; rewrite writeRows_length; lia).
  cbn [rawValues].
  rewrite (ensureWritable_size context (unionRows rows1 rows2) rows1)
    by (by apply size_unionRows).
  apply list_eq. intros j. unfold writeRows. rewrite !list_lookup_imap.
  destruct (rawValues _ !! j) as [old |]; [| reflexivity]. cbn.
  rewrite isValid_unionRows by exact Hsize.
  destruct (isValid rows1 j) eqn:E1, (isValid rows2 j) eqn:E2; cbn;
    rewrite ?(comparedAt_active rows1) by exact E1;
    rewrite ?(comparedAt_active rows2) by exact E2;
    rewrite ?(comparedAt_active (unionRows rows1 rows2))
      by (rewrite isValid_unionRows, E1, E2 by exact Hsize; reflexivity);
    try reflexivity.
  destruct (comparedLogically cmp v0 v1 j); reflexivity.
Qed.
End KernelPasses.

Lemma apply_in_two_passes_witness :
  exists out1 out,
    apply Z.ltb (mkRows [true; false; false])
      [FlatVector [1; 2; 3]%Z; ConstantVector 2%Z 3]
      (scalarType BOOLEAN) (mkEvalCtx (λ _, false)) None = Some out1
    /\ apply Z.ltb (mkRows [false; false; true])
         [FlatVector [1; 2; 3]%Z; ConstantVector 2%Z 3]
         (scalarType BOOLEAN) (mkEvalCtx (λ _, true))
         (Some (resultAfter out1)) = Some out
    /\ apply Z.ltb (unionRows (mkRows [true; false; false])
                      (mkRows [false; false; true]))
         [FlatVector [1; 2; 3]%Z; ConstantVector 2%Z 3]
         (scalarType BOOLEAN) (mkEvalCtx (λ _, false)) None = Some out.
Proof.
  apply (apply_in_two_passes Z.ltb (mkRows [true; false; false])
           (mkRows [false; false; true])
           (FlatVector [1; 2; 3]%Z) (ConstantVector 2%Z 3)
           (scalarType BOOLEAN) (scalarType BOOLEAN)
           (mkEvalCtx (λ _, false)) (mkEvalCtx (λ _, true)) None);
    reflexivity.
Defined.

Section KernelMasks.
Context {T : Type}.
Variable cmp : T -> T -> bool.

(** X10.  Deselecting rows is safe: when a call is defined on a mask, the
    call on any mask of the same batch with fewer active rows is defined
    too, and at the rows that stay active it stores the same values. *)
Theorem apply_on_smaller_mask rows rows' (v0 v1 : Vector T) outputType
    context result out :
  size rows' = size rows ->
  (forall i, isValid rows' i = true -> isValid rows i = true) ->
  apply cmp rows [v0; v1] outputType context result = Some out ->
  exists out',
    apply cmp rows' [v0; v1] outputType context result = Some out'
    /\ forall i, isValid rows' i = true ->
         rawValues (resultAfter out') !! i = rawValues (resultAfter out) !! i.
Proof.
  intros Hsize Hsub Hout.
  destruct (apply_Some_readable cmp _ _ _ _ _ _ _ _ Hout) as [H0 H1].
  assert (Hsmaller : forall v : Vector T,
             readable rows v = true -> readable rows' v = true).
  { intros v Hv. apply readable_intro. intros i Hi.
    rewrite valueAt_decode_active by exact Hi.
    rewrite <- (valueAt_decode_active rows) by auto.
    apply readable_valueAt; auto. }
  rewrite apply_closed_form in Hout by assumption. injection Hout as <-.
  eexists. split; [apply apply_closed_form; auto |].
  intros i Hi. cbn [resultAfter rawValues].
  pose proof (ensureWritable_length context rows (scalarType BOOLEAN) result)
    as Hlen.
  destruct (comparedAt_is_Some cmp rows v0 v1 i H0 H1 (Hsub i Hi))
    as [value Hvalue].
  rewrite (ensureWritable_size context rows' rows) by exact Hsize.
  transitivity (Some value).
  - apply writeRows_active; [exact Hi | lia |].
    rewrite (comparedAt_active cmp rows') by exact Hi.
    rewrite <- (comparedAt_active cmp rows) by auto. exact Hvalue.
  - symmetry. apply writeRows_active; [auto | exact Hlen | exact Hvalue].
Qed.
End KernelMasks.

Lemma apply_on_smaller_mask_witness :
  exists out',
    apply Z.eqb (mkRows [false; false; true])
      [DictionaryVector [2; 0; 1] (FlatVector [5; 9; 1]%Z);
       FlatVector [1; 7; 9]%Z]
      (scalarType BOOLEAN) (mkEvalCtx (λ _, false)) None = Some out'
    /\ forall i, isValid (mkRows [false; false; true]) i = true ->
         rawValues (resultAfter out') !! i = [true; false; true] !! i.
Proof.
  apply (apply_on_smaller_mask Z.eqb (mkRows [true; true; true])
           (mkRows [false; false; true])
           (DictionaryVector [2; 0; 1] (FlatVector [5; 9; 1]%Z))
           (FlatVector [1; 7; 9]%Z)
           (scalarType BOOLEAN) (mkEvalCtx (λ _, false)) None
           (mkOutcome
              [DictionaryVector [2; 0; 1] (FlatVector [5; 9; 1]%Z);
               FlatVector [1; 7; 9]%Z]
              (mkFlatResult (scalarType BOOLEAN) [true; false; true]))).
  - reflexivity.
  - intros [| [| [| i]]] Hi; try reflexivity; discriminate Hi.
  - reflexivity.
Defined.

(** ** The order of dispatch *)

Section KernelDispatch.
Context {T : Type}.
Variable cmp : T -> T -> bool.

(** C5.  The strategy of a call is selected once, from the shapes of the
    two arguments, before any row is touched.  The events of a call are:
    first the guards, each evaluated at most once, in the order
    Identity/Identity, Identity/Constant, Constant/Identity, up to the
    first that holds; then, in the two branches with a constant, the one
    read of the constant; then one comparison for each active row, in
    ascending order, all with the operands of the branch whose guard held,
    or of the generic fallback when none did.  The fallback is taken
    exactly for the remaining combinations (an argument is Generic, or both
    are Constant).  With a Constant first argument and an Identity second
    one, the cached constant is the left operand of [Cmp] and the dense
    element the right one at every active row, and the value stored is
    [Cmp] of them in that order.  The call itself returns the outcome of
    the recorded call. *)
Theorem dispatch_order rows (v0 v1 : Vector T) outputType context result :
  readable rows v0 = true ->
  readable rows v1 = true ->
  let st := dispatchTable (shapeOf v0) (shapeOf v1) in
  (exists out,
     Recorded.apply cmp rows [v0; v1] outputType context result
     = Some (Recorded.mkExecution out
               ((Tested <$> casesTested st) ++ constantReads st
                ++ ((λ i, Compared i (operandsOf st).1 (operandsOf st).2)
                      <$> selectedRows rows))%list)
     /\ apply cmp rows [v0; v1] outputType context result = Some out)
  /\ (st = Fallback <->
      shapeOf v0 = Generic \/ shapeOf v1 = Generic
      \/ (shapeOf v0 = Constant /\ shapeOf v1 = Constant))
  /\ (forall c n d1 i b,
        v0 = ConstantVector c n -> v1 = FlatVector d1 ->
        isValid rows i = true -> d1 !! i = Some b ->
        operandsOf st = (CachedConstant 0, FlatElement 1)
        /\ resultAt (apply cmp rows [v0; v1] outputType context result) i
           = Some (cmp c b)).
Proof.
  intros H0 H1 st.
  pose proof (ensureWritable_length context rows (scalarType BOOLEAN) result)
    as Hlen.
  split; [| split].
  - eexists. split; [| by apply apply_closed_form].
    rewrite recorded_apply_as_loop.
    rewrite applyToSelected_store;
      [reflexivity | exact Hlen |].
    intros i Hi. by apply comparedAt_is_Some.
  - subst st. destruct (shapeOf v0), (shapeOf v1); cbn; split;
      try discriminate; try tauto; intros [H | [H | [H H']]]; discriminate.
  - intros c n d1 i b -> -> Hi Hb. split; [reflexivity |].
    rewrite resultAt_closed_form by assumption.
    apply writeRows_active; [exact Hi | exact Hlen |].
    unfold comparedAt. cbn. rewrite Hb. reflexivity.
Qed.
End KernelDispatch.

Lemma dispatch_order_witness :
  Recorded.events
    <$> Recorded.apply Z.ltb (mkRows [true; false; true])
          [ConstantVector 5%Z 3; FlatVector [1; 5; 9]%Z]
          (scalarType BOOLEAN) (mkEvalCtx (λ _, false)) None
  = Some [Tested BothIdentity; Tested IdentityConstant;
          Tested ConstantIdentity; ConstantRead 0;
          Compared 0 (CachedConstant 0) (FlatElement 1);
          Compared 2 (CachedConstant 0) (FlatElement 1)].
Proof.
  destruct (dispatch_order Z.ltb (mkRows [true; false; true])
              (ConstantVector 5%Z 3) (FlatVector [1; 5; 9]%Z)
              (scalarType BOOLEAN) (mkEvalCtx (λ _, false)) None
              eq_refl eq_refl) as [(out & Hrecorded & _) _].
  rewrite Hrecorded. reflexivity.
Defined.
